(** * Krist: legacy plaintext queries, detailed work and websocket logout

    A shallow embedding of

    - [src/routes/addresses.js]: the legacy [GET /] query modes
      ([getbalance], [alert], [richapi], [listtx]) and
      [GET /addresses/:address/transactions];
    - the work routes: [GET /work/detailed];
    - [src/websocket_routes/logout.js]: the [logout] message handler.

    Conventions.  JavaScript numbers that hold ids, balances, values and
    countdowns are integers ([Z]); all arithmetic the handlers perform on them
    is exact below 2^53.  [null] and [undefined] are [None].  Strings are
    [string]; the addresses the node stores are ASCII, so [String.length] is
    the JavaScript [length].  A query-string object is a finite map from
    parameter names to string values (repeated or nested parameters, which the
    query parser would turn into arrays or objects, are not modelled).

    The handlers talk to the rest of the node through the modules they
    [require]; those modules are gathered in a record [Env].  The calls a
    handler makes on the modules that read the node's state or derive
    addresses ([addresses], [krist], [transactions], the listing of
    [controllers/transactions], [blocks], [names]) and, in the websocket
    handler, [utils.getLogDetails] and [console.log], are written to a
    trace, in order and with their arguments.  The formatting helpers
    ([utils.padDigits], [moment], [transactionToJSON],
    [utils.sendErrorToRes]) are applied as functions and leave no entry in
    it.

    A call the source awaits is modelled by the value it resolves to.  The one
    call the source does not await, [tx.getTransactionsByAddress] in the
    [listtx] mode, hands back an [Unawaited] value: the page itself if that
    function is synchronous, a promise of it if, like the store reads beside
    it, it is asynchronous. *)

From stdpp Require Import base option list sorting gmap strings pretty.
From Stdlib Require Import ZArith Lia Ascii.

Local Open Scope Z_scope.
Local Set Warnings "-register-all".

(** ** JavaScript values *)

Module JS.

(** [if (x)] on a value that is a string or [undefined]: the empty string
    and [undefined] are falsy.  The result carries the string the branch
    then reads. *)
Definition truthy (x : option string) : option string :=
  match x with
  | Some s => if decide (s = EmptyString) then None else Some s
  | None => None
  end.

(** [typeof x !== "undefined"] *)
Definition defined (x : option string) : bool :=
  match x with Some _ => true | None => false end.

(** [!s || s.length < n] on a value that is a string or [null]. *)
Definition absent_or_shorter (s : option string) (n : nat) : bool :=
  match s with
  | None => true
  | Some s => bool_decide (s = EmptyString) || (String.length s <? n)%nat
  end.

(** String concatenation [out += x] where [x] is a string or [null]. *)
Definition to_string (x : option string) : string :=
  match x with Some s => s | None => "null" end.

(** [Number.prototype.toString()] on an integer. *)
Definition Number_toString (n : Z) : string := pretty n.

(** [s.substr(0, n)] *)
Definition substr0 (s : string) (n : nat) : string := String.substring 0 n s.

(** [Array.prototype.forEach] with a callback that updates one captured
    variable: the callback is the state transformer, applied left to right. *)
Definition forEach {A S : Type} (l : list A) (f : S → A → S) (s : S) : S :=
  fold_left f l s.

(** What a call hands back when the caller does not [await] it: the value
    itself when the callee is synchronous, a promise of it otherwise. *)
Inductive Unawaited (A : Type) :=
| Returned (a : A)
| Promise (resolves_to : A).
Arguments Returned {A} _.
Arguments Promise {A} _.

(** [Array.prototype.sort(cmp)]: a stable sort; [cmp a b > 0] puts [b]
    first.  Stability fixes the result, so insertion from the right stands
    for whatever algorithm the engine runs. *)
Fixpoint sort_insert {A : Type} (cmp : A → A → Z) (x : A) (l : list A) : list A :=
  match l with
  | [] => [x]
  | y :: l' => if 0 <? cmp x y then y :: sort_insert cmp x l' else x :: l
  end.

Definition sort {A : Type} (cmp : A → A → Z) (l : list A) : list A :=
  foldr (sort_insert cmp) [] l.

End JS.

(** ** moment: the two formats the legacy protocol prints

    A date as moment sees it once converted to local time. *)

Module Moment.

Inductive Month :=
  Jan | Feb | Mar | Apr | May | Jun | Jul | Aug | Sep | Oct | Nov | Dec.

Record Date := mkDate {
  year : nat; month : Month; day : nat; hour : nat; minute : nat
}.

Definition monthsShort (m : Month) : string :=
  match m with
  | Jan => "Jan" | Feb => "Feb" | Mar => "Mar" | Apr => "Apr"
  | May => "May" | Jun => "Jun" | Jul => "Jul" | Aug => "Aug"
  | Sep => "Sep" | Oct => "Oct" | Nov => "Nov" | Dec => "Dec"
  end.

Fixpoint zeros (n : nat) : string :=
  match n with O => EmptyString | S n' => String "0"%char (zeros n') end.

Definition zeroFill (n : nat) (width : nat) : string :=
  let s := pretty n in zeros (width - String.length s) +:+ s.

(** [moment(t).format(fmt)] for the tokens [YYYY], [MMM], [DD], [HH] and
    [mm]; every other character is copied. *)
Fixpoint format (t : Date) (fmt : string) : string :=
  match fmt with
  | String "Y"%char (String "Y"%char (String "Y"%char (String "Y"%char r))) =>
      zeroFill (year t) 4 +:+ format t r
  | String "M"%char (String "M"%char (String "M"%char r)) =>
      monthsShort (month t) +:+ format t r
  | String "D"%char (String "D"%char r) => zeroFill (day t) 2 +:+ format t r
  | String "H"%char (String "H"%char r) => zeroFill (hour t) 2 +:+ format t r
  | String "m"%char (String "m"%char r) => zeroFill (minute t) 2 +:+ format t r
  | String c r => String c (format t r)
  | EmptyString => EmptyString
  end.

End Moment.

(** ** Data model: the rows the handlers read *)

Record Address := mkAddress {
  addr_address   : string;
  addr_balance   : Z;
  addr_totalin   : Z;
  addr_totalout  : Z;
  addr_firstseen : Moment.Date;
  addr_alert     : option string
}.

(** The classification of the data model.  No handler in these sources reads
    it: the legacy listing looks at [from] and [to] only. *)
Inductive TxType :=
  mined | transfer | name_purchase | name_transfer | name_a_record.

Global Instance TxType_eq_dec : EqDecision TxType.
Proof. solve_decision. Defined.

Record Transaction := mkTransaction {
  tx_id    : Z;
  tx_from  : option string;
  tx_to    : option string;
  tx_value : Z;
  tx_time  : Moment.Date;
  tx_type  : TxType
}.

(** One row of [names.getDetailedUnpaid()]: [count] names have [unpaid]
    blocks left. *)
Record UnpaidGroup := mkUnpaid { count : Z; unpaid : Z }.

Record Block := mkBlock { block_id : Z }.

(** The result of a [findAndCountAll]: a page of rows and the total. *)
Record Page (A : Type) := mkPage { rows : list A; total : Z }.
Arguments mkPage {A} _ _.
Arguments rows {A} _.
Arguments total {A} _.

(** [results.rows] on what an un-awaited call handed back: the rows of a
    page, [undefined] on a promise (a promise has no [rows] property). *)
Definition results_rows {A : Type} (results : JS.Unawaited (Page A))
  : option (list A) :=
  match results with
  | JS.Returned page => Some (rows page)
  | JS.Promise _ => None
  end.

(** An error thrown by a controller and rendered by [utils.sendErrorToRes]. *)
Record KristError := mkError { error : string; parameter : option string }.

(** ** Responses *)

Inductive json :=
| JNull
| JBool (b : bool)
| JNum (n : Z)
| JStr (s : string)
| JArr (l : list json)
| JObj (fields : list (string * json)).

(** [o.k] on an object literal: the value of the last field named [k]. *)
Fixpoint json_fields_get (k : string) (fields : list (string * json)) : option json :=
  match fields with
  | [] => None
  | (k', v) :: rest =>
      match json_fields_get k rest with
      | Some v' => Some v'
      | None => if decide (k' = k) then Some v else None
      end
  end.

Definition json_get (k : string) (o : json) : option json :=
  match o with JObj fields => json_fields_get k fields | _ => None end.

(** What a handler does with [res]/[next], or the exception it dies with. *)
Inductive Response :=
| Send (body : string)          (* [res.send(body)] *)
| SendJson (body : json)        (* [res.json(body)] *)
| Next                          (* [next()] *)
| TypeError.                    (* a property read on [null] or [undefined] *)

(** ** The required modules *)

Record Env := mkEnv {
  (* addresses.js *)
  addresses_getAddress : string → option Address;
  addresses_getRich : Page Address;
  (* krist.js *)
  krist_makeV2Address : string → string;
  krist_getWork : Z;
  (* transactions.js *)
  tx_getTransactionsByAddress :
    string → Z → Z → bool → JS.Unawaited (Page Transaction);
  (* controllers/transactions.js *)
  txController_getTransactionsByAddress :
    string → option string → option string → bool → KristError + Page Transaction;
  txController_transactionToJSON : Transaction → json;
  (* utils.js *)
  utils_padDigits : Z → Z → string;
  utils_sendErrorToRes : KristError → Response;
  utils_getLogDetails : string → string;
  (* blocks.js *)
  blocks_getLastBlock : option Block;
  blocks_getBaseBlockValue : Z → Z;
  (* names.js *)
  names_getUnpaidNameCount : Z;
  names_getDetailedUnpaid : list UnpaidGroup
}.

(** The traced calls of a handler, in order, with their arguments: the
    calls on the modules that read the node's state or derive addresses, and
    the two log calls of the websocket handler.  The formatting helpers are
    not among them. *)
Inductive Call :=
| call_addresses_getAddress (address : string)
| call_addresses_getRich
| call_krist_makeV2Address (key : string)
| call_krist_getWork
| call_tx_getTransactionsByAddress
    (address : string) (limit offset : Z) (includeMined : bool)
| call_txController_getTransactionsByAddress
    (address : string) (limit offset : option string) (includeMined : bool)
| call_blocks_getLastBlock
| call_blocks_getBaseBlockValue (id : Z)
| call_names_getUnpaidNameCount
| call_names_getDetailedUnpaid
| call_utils_getLogDetails (req : string)
| call_console_log (line : string).

(** A computation that returns a value and the calls it made. *)
Definition Traced (A : Type) : Type := A * list Call.

Definition ret {A} (x : A) : Traced A := (x, []).

Definition bind {A B} (m : Traced A) (k : A → Traced B) : Traced B :=
  let (b, t) := k m.1 in (b, m.2 ++ t).

Definition called {A} (c : Call) (x : A) : Traced A := (x, [c]).

Notation "'let*' x ':=' m 'in' k" := (bind m (fun x => k))
  (at level 10, x name, m at level 100, k at level 200).

Definition result {A} (m : Traced A) : A := m.1.
Definition trace {A} (m : Traced A) : list Call := m.2.

Section Calls.
Context (e : Env).

Definition getAddress (a : string) : Traced (option Address) :=
  called (call_addresses_getAddress a) (addresses_getAddress e a).
Definition getRich : Traced (Page Address) :=
  called call_addresses_getRich (addresses_getRich e).
Definition makeV2Address (k : string) : Traced string :=
  called (call_krist_makeV2Address k) (krist_makeV2Address e k).
Definition getWork : Traced Z :=
  called call_krist_getWork (krist_getWork e).
Definition getTransactionsByAddress (a : string) (limit offset : Z) (includeMined : bool)
  : Traced (JS.Unawaited (Page Transaction)) :=
  called (call_tx_getTransactionsByAddress a limit offset includeMined)
         (tx_getTransactionsByAddress e a limit offset includeMined).
Definition controller_getTransactionsByAddress
    (a : string) (limit offset : option string) (includeMined : bool)
  : Traced (KristError + Page Transaction) :=
  called (call_txController_getTransactionsByAddress a limit offset includeMined)
         (txController_getTransactionsByAddress e a limit offset includeMined).
Definition getLastBlock : Traced (option Block) :=
  called call_blocks_getLastBlock (blocks_getLastBlock e).
Definition getBaseBlockValue (id : Z) : Traced Z :=
  called (call_blocks_getBaseBlockValue id) (blocks_getBaseBlockValue e id).
Definition getUnpaidNameCount : Traced Z :=
  called call_names_getUnpaidNameCount (names_getUnpaidNameCount e).
Definition getDetailedUnpaid : Traced (list UnpaidGroup) :=
  called call_names_getDetailedUnpaid (names_getDetailedUnpaid e).
Definition getLogDetails (req : string) : Traced string :=
  called (call_utils_getLogDetails req) (utils_getLogDetails e req).
Definition console_log (line : string) : Traced unit :=
  called (call_console_log line) tt.
End Calls.

(** A request: [req.query] and [req.params.address]. *)
Record Request := mkRequest {
  query : gmap string string;
  params_address : string
}.

(** ** routes/addresses.js *)

Module AddressRoutes.
Section Handlers.
Context (e : Env).

(** The callback of [results.rows.forEach] in the [richapi] mode; [out] is
    the captured accumulator. *)
Definition richapi_each (out : string) (address : Address) : string :=
  let out := out +:+ JS.substr0 (addr_address address) 10 in
  let out := out +:+ utils_padDigits e (addr_balance address) 8 in
  let out := out +:+ Moment.format (addr_firstseen address) "DD MMM YYYY" in
  out.

(** The counterpart and the sign of one [listtx] line, as the callback
    computes them: [peer] and [sign] after the two sentinel checks. *)
Definition listtx_peer_sign (address : Address) (transaction : Transaction)
  : option string * string :=
  let peer := Some EmptyString in
  let sign := EmptyString in
  let '(peer, sign) :=
    if decide (tx_to transaction = Some (addr_address address)) then
      (tx_from transaction, "+")
    else if decide (tx_from transaction = Some (addr_address address)) then
      (tx_to transaction, "-")
    else (peer, sign) in
  let peer :=
    if JS.absent_or_shorter (tx_from transaction) 10
    then Some "N/A(Mined)" else peer in
  let peer :=
    if JS.absent_or_shorter (tx_to transaction) 10
    then Some "N/A(Names)" else peer in
  (peer, sign).

(** The callback of [results.rows.forEach] in the [listtx] mode. *)
Definition listtx_each (req : Request) (address : Address)
    (out : string) (transaction : Transaction) : string :=
  let out := out +:+ Moment.format (tx_time transaction) "MMM DD HH:mm" in
  let '(peer, sign) := listtx_peer_sign address transaction in
  let out := out +:+ JS.to_string peer in
  let out := out +:+ sign in
  let out := out +:+ utils_padDigits e (tx_value transaction) 8 in
  if JS.defined (query req !! "id")
  then out +:+ utils_padDigits e (tx_id transaction) 8
  else out.

(** [app.get("/", ...)].  The modes are tested in turn and the first one
    that applies answers.  In the [listtx] mode the call of
    [tx.getTransactionsByAddress] is not awaited: [results] is what the call
    hands back, and [results.rows.forEach] throws when [results.rows] is
    [undefined]. *)
Definition get_root (req : Request) : Traced Response :=
  match JS.truthy (query req !! "getbalance") with
  | Some getbalance =>
      let* address := getAddress e getbalance in
      match address with
      | Some address => ret (Send (JS.Number_toString (addr_balance address)))
      | None => ret (Send "0")
      end
  | None =>
  match JS.truthy (query req !! "alert") with
  | Some alert =>
      let* from := makeV2Address e alert in
      let* address := getAddress e from in
      match address with
      | Some address => ret (Send (default EmptyString (addr_alert address)))
      | None => ret (Send EmptyString)
      end
  | None =>
  if JS.defined (query req !! "richapi") then
      let* results := getRich e in
      let out := EmptyString in
      let out := JS.forEach (rows results) richapi_each out in
      ret (Send out)
  else
  match JS.truthy (query req !! "listtx") with
  | Some listtx =>
      let* address := getAddress e listtx in
      match address with
      | Some address =>
          let* results :=
            getTransactionsByAddress e (addr_address address)
              (if JS.defined (query req !! "overview") then 3 else 500) 0 true in
          let out := EmptyString in
          match results_rows results with
          | Some rows =>
              let out := JS.forEach rows (listtx_each req address) out in
              let out := out +:+ "end" in
              ret (Send out)
          | None => ret TypeError
          end
      | None => ret (Send "Error4")
      end
  | None => ret Next
  end end end.

(** [app.get("/addresses/:address/transactions", ...)] *)
Definition get_address_transactions (req : Request) : Traced Response :=
  let* transactions :=
    controller_getTransactionsByAddress e (params_address req)
      (query req !! "limit") (query req !! "offset")
      (negb (JS.defined (query req !! "excludeMined"))) in
  match transactions with
  | inr transactions =>
      let out := map (txController_transactionToJSON e) (rows transactions) in
      ret (SendJson (JObj [
        ("ok", JBool true);
        ("count", JNum (Z.of_nat (length out)));
        ("total", JNum (total transactions));
        ("transactions", JArr out) ]))
  | inl error => ret (utils_sendErrorToRes e error)
  end.

End Handlers.
End AddressRoutes.

(** ** The work routes *)

Module WorkRoutes.

(** [detailedUnpaid.find(u => u.unpaid > 0)] *)
Definition nextUnpaid (detailedUnpaid : list UnpaidGroup) : option UnpaidGroup :=
  List.find (λ u, bool_decide (0 < unpaid u)) detailedUnpaid.

(** [[...detailedUnpaid.filter(u => u.unpaid > 0)]], then sorted in place
    with [(a, b) => b.unpaid - a.unpaid]. *)
Definition mostUnpaid (detailedUnpaid : list UnpaidGroup) : list UnpaidGroup :=
  let mostUnpaid := filter (λ u, 0 < unpaid u) detailedUnpaid in
  JS.sort (λ a b, unpaid b - unpaid a) mostUnpaid.

(** The [decrease] object of the response. *)
Definition decrease (detailedUnpaid : list UnpaidGroup) : json :=
  let nextUnpaid := nextUnpaid detailedUnpaid in
  let mostUnpaid := mostUnpaid detailedUnpaid in
  JObj [
    ("value", JNum (match nextUnpaid with Some u => count u | None => 0 end));
    ("blocks", JNum (match nextUnpaid with Some u => unpaid u | None => 0 end));
    ("reset", JNum (if bool_decide (0 < length mostUnpaid)%nat
                    then from_option unpaid 0 (mostUnpaid !! 0%nat) else 0)) ].

Section Handlers.
Context (e : Env).

(** [app.get("/work/detailed", ...)].  [lastBlock.id] is read after the
    unpaid count has been fetched; on an empty chain it throws. *)
Definition get_work_detailed : Traced Response :=
  let* lastBlock := getLastBlock e in
  let* unpaidNames := getUnpaidNameCount e in
  match lastBlock with
  | None => ret TypeError
  | Some lastBlock =>
      let* baseValue := getBaseBlockValue e (block_id lastBlock) in
      let* detailedUnpaid := getDetailedUnpaid e in
      let* work := getWork e in
      ret (SendJson (JObj [
        ("ok", JBool true);
        ("work", JNum work);
        ("unpaid", JNum unpaidNames);
        ("base_value", JNum baseValue);
        ("block_value", JNum (baseValue + unpaidNames));
        ("decrease", decrease detailedUnpaid) ]))
  end.
End Handlers.

End WorkRoutes.

(** ** websocket_routes/logout.js *)

Module WebsocketRoutes.

(** The fields of a connection the handler touches. *)
Record WebSocket := mkWebSocket {
  auth : string;
  isGuest : bool;
  req : string
}.

Section Handlers.
Context (e : Env).

(** The [logout] message handler: the reply and the connection as the
    handler leaves it. *)
Definition logout (ws : WebSocket) : Traced (json * WebSocket) :=
  let* logDetails := getLogDetails e (req ws) in
  let* _ := console_log
    ("[Websockets] Session " +:+ auth ws +:+ " logged out " +:+ logDetails) in
  let ws := mkWebSocket "guest" (isGuest ws) (req ws) in
  let ws := mkWebSocket (auth ws) true (req ws) in
  ret (JObj [ ("ok", JBool true); ("isGuest", JBool true) ], ws).
End Handlers.

End WebsocketRoutes.

(** ** Collaborators that are not among the sources *)

Module SpecModel.

(** Modelled from the spec: [utils.padDigits] is not among the sources; the
    legacy protocol calls its result the number zero-padded to [digits]
    digits: zeros are put in front of the decimal rendering until it has
    [digits] characters, and a longer rendering is left as it is. *)
Definition padDigits (number digits : Z) : string :=
  let s := JS.Number_toString number in
  Moment.zeros (Z.to_nat digits - String.length s) +:+ s.

(** A row belongs to an address that sent or received it. *)
Definition involves (addressId : string) (t : Transaction) : Prop :=
  tx_from t = Some addressId ∨ tx_to t = Some addressId.

Global Instance involves_dec a t : Decision (involves a t).
Proof. unfold involves; apply _. Defined.

(** Modelled from the spec: [listByAddress(addressId, limit, offset,
    includeMined)] of the transaction log, whose code
    ([transactions.js], [controllers/transactions.js]) is not among the
    sources: the rows of the address, most recent id first; when
    [includeMined] is false the rows whose type is [mined] are left out;
    [total] counts the rows before paging. *)
Definition listByAddress (log : list Transaction)
    (addressId : string) (limit offset : nat) (includeMined : bool)
  : Page Transaction :=
  let matching :=
    filter (λ t, involves addressId t ∧ (includeMined = true ∨ tx_type t ≠ mined)) log in
  let ordered := JS.sort (λ a b, tx_id b - tx_id a) matching in
  mkPage (take limit (drop offset ordered)) (Z.of_nat (length matching)).

(** Modelled from the spec: the controller in front of [listByAddress].
    Checking the address and turning [limit]/[offset] into numbers (with
    their defaults and clamps) belongs to the request-validation layer and
    is the parameter [validate]; a failure there is the error the route
    hands to [utils.sendErrorToRes]. *)
Definition controller
    (validate : string → option string → option string → KristError + (string * nat * nat))
    (log : list Transaction)
    (address : string) (limit offset : option string) (includeMined : bool)
  : KristError + Page Transaction :=
  match validate address limit offset with
  | inl err => inl err
  | inr (addressId, limit, offset) =>
      inr (listByAddress log addressId limit offset includeMined)
  end.

End SpecModel.

(** ** A small node to run the handlers on *)

Module Demo.
Import Moment.

Definition alice : string := "kalice0000".
Definition bob   : string := "kbob000000".

Definition ledger : list Address := [
  mkAddress alice 125 150 25 (mkDate 2016 Feb 7 9 30) None;
  mkAddress bob 4500000 4500025 25 (mkDate 2015 Dec 24 18 5) (Some "hello")
].

Definition log : list Transaction := [
  mkTransaction 1 None (Some alice) 50 (mkDate 2016 Feb 7 9 30) mined;
  mkTransaction 2 (Some bob) (Some alice) 100 (mkDate 2016 Feb 8 10 0) transfer;
  mkTransaction 3 (Some alice) (Some "name") 500 (mkDate 2016 Mar 1 23 59) name_purchase;
  mkTransaction 4 (Some alice) (Some bob) 25 (mkDate 2016 Mar 2 0 7) transfer
].

Definition validate (address : string) (limit offset : option string)
  : KristError + (string * nat * nat) :=
  if decide (String.length address = 10%nat)
  then inr (address, 50%nat, 0%nat)
  else inl (mkError "invalid_parameter" (Some "address")).

(** The node, with the rows [names.getDetailedUnpaid()] returns left open. *)
Definition env_with (detailedUnpaid : list UnpaidGroup) : Env := {|
  addresses_getAddress a :=
    List.find (λ r, bool_decide (addr_address r = a)) ledger;
  addresses_getRich :=
    mkPage (JS.sort (λ a b, addr_balance b - addr_balance a) ledger) 2;
  krist_makeV2Address k := "k" +:+ JS.substr0 k 9;
  krist_getWork := 92861;
  tx_getTransactionsByAddress a limit offset includeMined :=
    JS.Promise
      (SpecModel.listByAddress log a (Z.to_nat limit) (Z.to_nat offset) includeMined);
  txController_getTransactionsByAddress := SpecModel.controller validate log;
  txController_transactionToJSON t :=
    JObj [("id", JNum (tx_id t)); ("value", JNum (tx_value t))];
  utils_padDigits := SpecModel.padDigits;
  utils_sendErrorToRes err :=
    SendJson (JObj [("ok", JBool false); ("error", JStr (error err))]);
  utils_getLogDetails r := "(" +:+ r +:+ ")";
  blocks_getLastBlock := Some (mkBlock 4);
  blocks_getBaseBlockValue id := if id <? 222222 then 25 else 1;
  names_getUnpaidNameCount := 3;
  names_getDetailedUnpaid := detailedUnpaid
|}.

Definition env : Env :=
  env_with [mkUnpaid 7 0; mkUnpaid 2 496; mkUnpaid 1 500].

(** [GET /?listtx=kalice0000&id] *)
Definition listtx_request : Request :=
  mkRequest {[ "listtx" := alice; "id" := EmptyString ]} EmptyString.

(** [GET /?getbalance=kbob000000] *)
Definition getbalance_request : Request :=
  mkRequest {[ "getbalance" := bob ]} EmptyString.

(** [GET /?richapi] *)
Definition richapi_request : Request :=
  mkRequest {[ "richapi" := EmptyString ]} EmptyString.

(** [GET /addresses/kalice0000/transactions?excludeMined] *)
Definition transactions_request : Request :=
  mkRequest {[ "excludeMined" := EmptyString ]} alice.

End Demo.

(** ** Vocabulary of the statements *)

(** The reply of the logout handler. *)
Definition guest_reply : json :=
  JObj [ ("ok", JBool true); ("isGuest", JBool true) ].

(** The groups that still inflate the block value. *)
Definition positive (D : list UnpaidGroup) : list UnpaidGroup :=
  filter (λ u, 0 < unpaid u) D.

(** The sequence lists the groups by ascending countdown. *)
Definition ascending (D : list UnpaidGroup) : Prop :=
  StronglySorted (λ a b, unpaid a ≤ unpaid b) D.

(** One entry per countdown value. *)
Definition distinct_countdowns (D : list UnpaidGroup) : Prop :=
  NoDup (unpaid <$> D).

Definition decrease_object (value blocks reset : Z) : json :=
  JObj [ ("value", JNum value); ("blocks", JNum blocks); ("reset", JNum reset) ].

(** Descending order by a key: every element is at least its successors. *)
Definition descending {A : Type} (key : A → Z) (l : list A) : Prop :=
  StronglySorted (λ a b, key b ≤ key a) l.

(** The forecast as the specification words it, for any order of the
    groups: [value] and [blocks] come from a group with the least positive
    countdown. *)
Definition forecast_of_least_group : Prop :=
  ∀ (e : Env) (lastBlock : Block) (g : UnpaidGroup),
    blocks_getLastBlock e = Some lastBlock →
    let D := names_getDetailedUnpaid e in
    g ∈ D → 0 < unpaid g →
    (∀ h, h ∈ D → 0 < unpaid h → unpaid g ≤ unpaid h) →
    ∃ body d,
      result (WorkRoutes.get_work_detailed e) = SendJson body
      ∧ json_get "decrease" body = Some d
      ∧ json_get "value" d = Some (JNum (count g))
      ∧ json_get "blocks" d = Some (JNum (unpaid g)).

(** *** The legacy query modes

    [GET /] tests the mode parameters in the order [getbalance], [alert],
    [richapi], [listtx]; a request is served by a mode when that mode's
    parameter passes its test and no earlier one does. *)

Definition selects_getbalance (req : Request) (v : string) : Prop :=
  JS.truthy (query req !! "getbalance") = Some v.

Definition selects_richapi (req : Request) : Prop :=
  JS.truthy (query req !! "getbalance") = None
  ∧ JS.truthy (query req !! "alert") = None
  ∧ is_Some (query req !! "richapi").

Definition selects_listtx (req : Request) (v : string) : Prop :=
  JS.truthy (query req !! "getbalance") = None
  ∧ JS.truthy (query req !! "alert") = None
  ∧ query req !! "richapi" = None
  ∧ JS.truthy (query req !! "listtx") = Some v.

(** Concatenation with no delimiter of one record per row. *)
Definition concat_records {A : Type} (record : A → string) (l : list A) : string :=
  String.concat EmptyString (record <$> l).

(** One record of the rich list, field by field. *)
Definition richapi_record (e : Env) (address : Address) : string :=
  JS.substr0 (addr_address address) 10
  +:+ utils_padDigits e (addr_balance address) 8
  +:+ Moment.format (addr_firstseen address) "DD MMM YYYY".

(** One line of the transaction listing, field by field, with the
    counterpart and sign the handler computes. *)
Definition listtx_record (e : Env) (wantId : bool)
    (address : Address) (t : Transaction) : string :=
  Moment.format (tx_time t) "MMM DD HH:mm"
  +:+ JS.to_string (AddressRoutes.listtx_peer_sign address t).1
  +:+ (AddressRoutes.listtx_peer_sign address t).2
  +:+ utils_padDigits e (tx_value t) 8
  +:+ (if wantId then utils_padDigits e (tx_id t) 8 else EmptyString).

(** A field that is absent or shorter than the ten characters of an
    address. *)
Definition absent_or_short (s : option string) : Prop :=
  match s with None => True | Some s => (String.length s < 10)%nat end.

(** The counterpart of a line as the specification words it: the peer id,
    or the sentinel when the peer is not a real address. *)
Definition peer_or_sentinel (peer : option string) (sentinel : string) : string :=
  match peer with
  | Some s => if (10 <=? String.length s)%nat then s else sentinel
  | None => sentinel
  end.

(** One line as the specification words it: timestamp, counterpart or
    sentinel, [+] for a credit to [addressId] and [-] for a debit, the padded
    value and, when asked for, the padded id. *)
Definition legacy_line (e : Env) (wantId : bool)
    (addressId : string) (t : Transaction) : string :=
  let credit := bool_decide (tx_to t = Some addressId) in
  Moment.format (tx_time t) "MMM DD HH:mm"
  +:+ (if credit then peer_or_sentinel (tx_from t) "N/A(Mined)"
       else peer_or_sentinel (tx_to t) "N/A(Names)")
  +:+ (if credit then "+" else "-")
  +:+ utils_padDigits e (tx_value t) 8
  +:+ (if wantId then utils_padDigits e (tx_id t) 8 else EmptyString).

(** The counterpart before the sentinel checks. *)
Definition counterpart (a : Address) (t : Transaction) : option string :=
  if decide (tx_to t = Some (addr_address a)) then tx_from t
  else if decide (tx_from t = Some (addr_address a)) then tx_to t
  else Some EmptyString.

(** The sentinel a line prints, if it prints one. *)
Definition sentinel_of (peer : option string) : option string :=
  match peer with
  | Some s =>
      if decide (s = "N/A(Mined)") then Some s
      else if decide (s = "N/A(Names)") then Some s
      else None
  | None => None
  end.

(** The claim that the stored type alone decides which sentinel, if any, a
    line prints. *)
Definition sentinel_decided_by_type : Prop :=
  ∀ address t1 t2,
    tx_type t1 = tx_type t2 →
    sentinel_of (AddressRoutes.listtx_peer_sign address t1).1
    = sentinel_of (AddressRoutes.listtx_peer_sign address t2).1.

(** A date of the calendar, with a year of at most four digits. *)
Definition calendar (t : Moment.Date) : Prop :=
  (N.of_nat (Moment.year t) < 10000)%N
  ∧ (Moment.day t ≤ 31 ∧ Moment.hour t ≤ 23 ∧ Moment.minute t ≤ 59)%nat.

Definition is_digit (c : ascii) : bool :=
  (48 <=? nat_of_ascii c)%nat && (nat_of_ascii c <=? 57)%nat.

Fixpoint all_digits (s : string) : bool :=
  match s with
  | EmptyString => true
  | String c r => is_digit c && all_digits r
  end.

(** A rich-list row whose three fields have their nominal widths. *)
Definition richapi_row_fits (e : Env) (a : Address) : Prop :=
  (10 ≤ String.length (addr_address a))%nat
  ∧ String.length (utils_padDigits e (addr_balance a) 8) = 8%nat
  ∧ calendar (addr_firstseen a).

Definition at_most_ten (s : option string) : Prop :=
  match s with None => True | Some s => (String.length s ≤ 10)%nat end.

(** A transaction whose fields have their nominal widths: no [from] or [to]
    longer than an address, value and id padded to eight characters. *)
Definition listtx_row_fits (e : Env) (t : Transaction) : Prop :=
  calendar (tx_time t)
  ∧ at_most_ten (tx_from t) ∧ at_most_ten (tx_to t)
  ∧ String.length (utils_padDigits e (tx_value t) 8) = 8%nat
  ∧ String.length (utils_padDigits e (tx_id t) 8) = 8%nat.

(** The [limit] argument of the [listtx] fetch. *)
Definition listtx_limit (req : Request) : Z :=
  if JS.defined (query req !! "overview") then 3 else 500.

(** ** The remaining work routes and the chain of [GET /] handlers *)

Module WorkLegacy.
Section Handlers.
Context (e : Env).

(** [app.get("/", ...)] of the work routes: the legacy [getwork] mode. *)
Definition get_root_getwork (req : Request) : Traced Response :=
  if JS.defined (query req !! "getwork") then
    let* work := getWork e in
    ret (Send (JS.Number_toString work))
  else ret Next.

End Handlers.
End WorkLegacy.

(** Two handlers registered on the same path: the second one runs when the
    first one calls [next()], and only then. *)
Definition chain (first second : Request → Traced Response)
    (req : Request) : Traced Response :=
  let* r := first req in
  match r with
  | Next => second req
  | _ => ret r
  end.

(** *** Vocabulary of the further statements *)

Definition selects_alert (req : Request) (key : string) : Prop :=
  JS.truthy (query req !! "getbalance") = None
  ∧ JS.truthy (query req !! "alert") = Some key.

(** No legacy mode of the address routes applies. *)
Definition selects_none (req : Request) : Prop :=
  JS.truthy (query req !! "getbalance") = None
  ∧ JS.truthy (query req !! "alert") = None
  ∧ query req !! "richapi" = None
  ∧ JS.truthy (query req !! "listtx") = None.

(** The request with one query parameter taken away. *)
Definition without (k : string) (req : Request) : Request :=
  mkRequest (delete k (query req)) (params_address req).

(** The parameters [GET /] tests for truthiness. *)
Definition truthy_tested (k : string) : Prop :=
  k = "getbalance" ∨ k = "alert" ∨ k = "listtx".

(** The parameters [GET /] tests for presence. *)
Definition presence_tested (k : string) : Prop :=
  k = "richapi" ∨ k = "overview" ∨ k = "id".

(** Two requests that [GET /] cannot tell apart. *)
Definition same_legacy_view (req req' : Request) : Prop :=
  (∀ k, truthy_tested k →
        JS.truthy (query req' !! k) = JS.truthy (query req !! k))
  ∧ (∀ k, presence_tested k →
          JS.defined (query req' !! k) = JS.defined (query req !! k)).

(** The calls the address handler of [GET /] can make. *)
Definition legacy_call (c : Call) : Prop :=
  match c with
  | call_addresses_getAddress _ | call_addresses_getRich
  | call_krist_makeV2Address _ => True
  | call_tx_getTransactionsByAddress _ limit offset includeMined =>
      (limit = 3 ∨ limit = 500) ∧ offset = 0 ∧ includeMined = true
  | _ => False
  end.

(** [s] begins with [p]. *)
Definition starts_with (p s : string) : Prop := ∃ rest, s = p +:+ rest.

Definition json_num (k : string) (o : json) : option Z :=
  match json_get k o with Some (JNum n) => Some n | _ => None end.

(** * Properties *)

(** ** Websocket logout *)

Module LogoutFacts.
Import WebsocketRoutes.

Lemma logout_result e ws :
  result (logout e ws) = (guest_reply, mkWebSocket "guest" true (req ws)).
Proof. reflexivity. Qed.

(** C3.  Whatever the session of a connection is (guest or logged in to
    any address), the [logout] handler leaves it a guest session
    ([auth = "guest"], [isGuest = true]) on the same connection and replies
    [{ok: true, isGuest: true}]; a second logout changes nothing and gets
    the same reply, and the logout of a guest leaves the connection as it
    was. *)
Theorem logout_always_guest (e : Env) (ws : WebSocket) :
  let '(reply, ws') := result (logout e ws) in
  (auth ws' = "guest" ∧ isGuest ws' = true ∧ req ws' = req ws)
  ∧ reply = guest_reply
  ∧ json_get "ok" reply = Some (JBool true)
  ∧ json_get "isGuest" reply = Some (JBool true)
  ∧ result (logout e ws') = (reply, ws')
  ∧ (auth ws = "guest" → isGuest ws = true → ws' = ws).
Proof.
  rewrite logout_result. cbn.
  repeat split.
  intros Ha Hg. destruct ws as [a g r]; cbn in *. by subst.
Qed.

Lemma logout_always_guest_witness :
  let ws := mkWebSocket "guest" true "10.0.0.7" in
  auth ws = "guest" ∧ isGuest ws = true ∧
  (result (logout Demo.env ws)).2 = ws.
Proof.
  intros ws. split; [reflexivity|]. split; [reflexivity|].
  pose proof (logout_always_guest Demo.env ws) as H.
  destruct (result (logout Demo.env ws)) as [reply ws'].
  destruct H as (_ & _ & _ & _ & _ & H).
  apply H; reflexivity.
Defined.

End LogoutFacts.

(** ** Sorting with a descending comparator *)

Section Sort.
Context {A : Type} (key : A → Z).

(** The comparator [(a, b) => key(b) - key(a)]. *)
Local Abbreviation cmp := (fun a b : A => key b - key a).

Lemma sort_insert_elem x y l :
  y ∈ JS.sort_insert cmp x l ↔ y = x ∨ y ∈ l.
Proof.
  induction l as [|z l IH]; cbn.
  - rewrite elem_of_cons, elem_of_nil. tauto.
  - destruct (0 <? key z - key x);
      rewrite !elem_of_cons, ?IH; tauto.
Qed.

Lemma sort_cons x l :
  JS.sort cmp (x :: l) = JS.sort_insert cmp x (JS.sort cmp l).
Proof. reflexivity. Qed.

Lemma sort_elem y l : y ∈ JS.sort cmp l ↔ y ∈ l.
Proof.
  induction l as [|z l IH]; [done|].
  rewrite sort_cons, sort_insert_elem, elem_of_cons, IH. tauto.
Qed.

Lemma sort_insert_length x l :
  length (JS.sort_insert cmp x l) = S (length l).
Proof.
  induction l as [|z l IH]; cbn; [done|].
  destruct (0 <? key z - key x); cbn; by rewrite ?IH.
Qed.

Lemma sort_length l : length (JS.sort cmp l) = length l.
Proof.
  induction l as [|z l IH]; [done|].
  rewrite sort_cons, sort_insert_length. cbn. by rewrite IH.
Qed.

Lemma sort_insert_descending x l :
  descending key l → descending key (JS.sort_insert cmp x l).
Proof.
  unfold descending.
  induction 1 as [|z l Hl IH Hz]; cbn.
  - repeat constructor.
  - destruct (Z.ltb_spec 0 (key z - key x)).
    + constructor; [done|].
      apply Forall_forall. intros y Hy.
      apply sort_insert_elem in Hy as [->|Hy]; [lia|].
      rewrite Forall_forall in Hz. by apply Hz.
    + constructor; [by constructor|].
      constructor; [lia|].
      eapply Forall_impl; [done|]. cbn. intros; lia.
Qed.

Lemma sort_descending l : descending key (JS.sort cmp l).
Proof.
  induction l as [|z l IH]; [constructor|].
  rewrite sort_cons. by apply sort_insert_descending.
Qed.

(** The first element of the sorted array carries the largest key. *)
Lemma sort_head_max l hi :
  head (JS.sort cmp l) = Some hi →
  hi ∈ l ∧ ∀ y, y ∈ l → key y ≤ key hi.
Proof.
  intros Hhd. pose proof (sort_descending l) as Hs.
  destruct (JS.sort cmp l) as [|h t] eqn:E; [done|].
  injection Hhd as ->.
  assert (∀ y, y ∈ l ↔ y ∈ hi :: t) as Hin.
  { intros y. by rewrite <-E, sort_elem. }
  split; [apply Hin; left|].
  intros y Hy. apply Hin in Hy.
  apply StronglySorted_inv in Hs as [_ Hall].
  rewrite Forall_forall in Hall.
  apply elem_of_cons in Hy as [->|Hy]; [lia|by apply Hall].
Qed.

End Sort.

(** ** Detailed work *)

Module WorkFacts.
Import WorkRoutes.

(** [find] returns the first row that passes the filter. *)
Lemma nextUnpaid_head D : nextUnpaid D = head (positive D).
Proof.
  unfold nextUnpaid, positive.
  induction D as [|u D IH]; [done|].
  cbn [List.find]. rewrite filter_cons.
  case_bool_decide; case_decide; done.
Qed.

Lemma mostUnpaid_sorted_positive D :
  mostUnpaid D = JS.sort (λ a b, unpaid b - unpaid a) (positive D).
Proof. reflexivity. Qed.

Lemma positive_elem D g : g ∈ positive D ↔ 0 < unpaid g ∧ g ∈ D.
Proof. unfold positive. by rewrite list_elem_of_filter. Qed.

(** In an ascending sequence the first positive group has the least
    positive countdown. *)
Lemma ascending_first_least D first rest :
  ascending D → positive D = first :: rest →
  ∀ g, g ∈ positive D → unpaid first ≤ unpaid g.
Proof.
  unfold ascending, positive.
  induction 1 as [|u D Hs IH Hu]; [done|].
  rewrite filter_cons. case_decide as Hpos.
  - intros [= -> <-] g Hg.
    apply elem_of_cons in Hg as [->|Hg]; [lia|].
    apply list_elem_of_filter in Hg as [_ Hg].
    rewrite Forall_forall in Hu. by apply Hu.
  - exact IH.
Qed.

Lemma distinct_countdowns_inj D g h :
  distinct_countdowns D → g ∈ D → h ∈ D → unpaid g = unpaid h → g = h.
Proof.
  unfold distinct_countdowns.
  induction D as [|u D IH]; cbn; [by intros _ ?%elem_of_nil|].
  intros [Hu HD]%NoDup_cons Hg Hh Heq.
  apply elem_of_cons in Hg as [->|Hg]; apply elem_of_cons in Hh as [->|Hh].
  - done.
  - destruct Hu. rewrite Heq. by apply list_elem_of_fmap_2.
  - destruct Hu. rewrite <-Heq. by apply list_elem_of_fmap_2.
  - by apply IH.
Qed.

(** The [reset] field is the largest positive countdown. *)
Lemma decrease_positive D first rest :
  positive D = first :: rest →
  ∃ hi, decrease D = decrease_object (count first) (unpaid first) (unpaid hi)
        ∧ hi ∈ positive D
        ∧ ∀ g, g ∈ positive D → unpaid g ≤ unpaid hi.
Proof.
  intros Hpos. unfold decrease.
  rewrite nextUnpaid_head, mostUnpaid_sorted_positive, Hpos. cbn [head].
  rewrite sort_length. cbn [length].
  rewrite bool_decide_eq_true_2 by lia.
  destruct (JS.sort _ (first :: rest)) as [|hi t] eqn:E.
  { apply (f_equal length) in E. rewrite sort_length in E. done. }
  exists hi. split; [done|].
  apply (sort_head_max unpaid). by rewrite E.
Qed.

Lemma decrease_empty D : positive D = [] → decrease D = decrease_object 0 0 0.
Proof.
  intros Hpos. unfold decrease.
  by rewrite nextUnpaid_head, mostUnpaid_sorted_positive, Hpos.
Qed.

(** The three fields of [decrease], for any sequence of groups. *)
Lemma decrease_shape (D : list UnpaidGroup) :
  (positive D = [] → decrease D = decrease_object 0 0 0)
  ∧ (∀ first rest, positive D = first :: rest →
      ∃ hi,
        decrease D = decrease_object (count first) (unpaid first) (unpaid hi)
        ∧ hi ∈ positive D
        ∧ (∀ g, g ∈ positive D → unpaid g ≤ unpaid hi)
        ∧ (ascending D → ∀ g, g ∈ positive D → unpaid first ≤ unpaid g)
        ∧ (distinct_countdowns D →
           ∀ g, g ∈ D → unpaid g = unpaid first → g = first)).
Proof.
  split; [apply decrease_empty|].
  intros first rest Hpos.
  destruct (decrease_positive D first rest Hpos) as (hi & Hd & Hhi & Hmax).
  exists hi. repeat split; try done.
  - intros Hasc. by eapply ascending_first_least.
  - intros Hdis g Hg Heq.
    apply (distinct_countdowns_inj D); try done.
    assert (first ∈ positive D) as Hf by (rewrite Hpos; left).
    by apply positive_elem in Hf as [_ ?].
Qed.

Lemma work_detailed_body e lastBlock :
  blocks_getLastBlock e = Some lastBlock →
  result (get_work_detailed e) =
    SendJson (JObj [
      ("ok", JBool true);
      ("work", JNum (krist_getWork e));
      ("unpaid", JNum (names_getUnpaidNameCount e));
      ("base_value", JNum (blocks_getBaseBlockValue e (block_id lastBlock)));
      ("block_value", JNum (blocks_getBaseBlockValue e (block_id lastBlock)
                            + names_getUnpaidNameCount e));
      ("decrease", decrease (names_getDetailedUnpaid e)) ]).
Proof.
  intros Hlast. unfold get_work_detailed, getLastBlock, result.
  cbn. rewrite Hlast. reflexivity.
Qed.

(** X19.  On a chain with a last block, let [D] be the
    sequence [names.getDetailedUnpaid()] returns.  When no group of [D] has a
    countdown above zero the [decrease] object of [GET /work/detailed] is
    [{value: 0, blocks: 0, reset: 0}].  Otherwise [reset] is the largest
    countdown among the groups above zero, and [value] and [blocks] are the
    count and the countdown of the first group above zero in the order of
    [D]; when that order is ascending by countdown this first group has the
    least countdown [m] above zero, so that [blocks = m] and [value] is the
    count of a group with countdown [m]; when moreover [D] has one entry per
    countdown it is the only group with that countdown. *)
Theorem decrease_forecast (e : Env) (lastBlock : Block) :
  blocks_getLastBlock e = Some lastBlock →
  let D := names_getDetailedUnpaid e in
  ∃ body d,
    result (get_work_detailed e) = SendJson body
    ∧ json_get "decrease" body = Some d
    ∧ (positive D = [] → d = decrease_object 0 0 0)
    ∧ (∀ first rest, positive D = first :: rest →
        ∃ hi,
          d = decrease_object (count first) (unpaid first) (unpaid hi)
          ∧ hi ∈ positive D
          ∧ (∀ g, g ∈ positive D → unpaid g ≤ unpaid hi)
          ∧ (ascending D → ∀ g, g ∈ positive D → unpaid first ≤ unpaid g)
          ∧ (distinct_countdowns D →
             ∀ g, g ∈ D → unpaid g = unpaid first → g = first)).
Proof.
  intros Hlast D. eexists _, (decrease D).
  split; [by apply work_detailed_body|].
  split; [reflexivity|]. apply decrease_shape.
Qed.

Lemma decrease_forecast_witness :
  let D := names_getDetailedUnpaid Demo.env in
  blocks_getLastBlock Demo.env = Some (mkBlock 4)
  ∧ positive D = [mkUnpaid 2 496; mkUnpaid 1 500]
  ∧ ascending D
  ∧ ∃ body d hi,
      result (get_work_detailed Demo.env) = SendJson body
      ∧ json_get "decrease" body = Some d
      ∧ d = decrease_object 2 496 (unpaid hi)
      ∧ (∀ g, g ∈ positive D → unpaid g ≤ unpaid hi)
      ∧ (∀ g, g ∈ positive D → 496 ≤ unpaid g).
Proof.
  intros D.
  assert (ascending D) as Hasc.
  { repeat constructor; cbn; lia. }
  split; [reflexivity|]. split; [reflexivity|]. split; [exact Hasc|].
  destruct (decrease_forecast Demo.env (mkBlock 4) eq_refl)
    as (body & d & Hbody & Hd & _ & Hpos).
  destruct (Hpos (mkUnpaid 2 496) [mkUnpaid 1 500] eq_refl)
    as (hi & Hobj & _ & Hmax & Hmin & _).
  exists body, d, hi.
  split; [exact Hbody|]. split; [exact Hd|]. split; [exact Hobj|].
  split; [exact Hmax|exact (Hmin Hasc)].
Defined.

(** The example of the specification. *)
Example decrease_sample :
  decrease [mkUnpaid 2 5; mkUnpaid 1 20] = decrease_object 2 5 20.
Proof. reflexivity. Qed.

(** The handler does not meet that wording on every sequence of rows: on
    [[{unpaid: 20, count: 1}, {unpaid: 5, count: 2}]] the group with the
    least countdown is the second one and is not the one reported. *)
Lemma decrease_first_not_least : ¬ forecast_of_least_group.
Proof.
  intros H.
  destruct (H (Demo.env_with [mkUnpaid 1 20; mkUnpaid 2 5])
              (mkBlock 4) (mkUnpaid 2 5) eq_refl)
    as (body & d & Hbody & Hd & Hv & _).
  - right; left.
  - cbn; lia.
  - intros h Hh _.
    apply elem_of_cons in Hh as [->|Hh]; [cbn; lia|].
    apply elem_of_cons in Hh as [->|Hh]; [cbn; lia|].
    by apply elem_of_nil in Hh.
  - vm_compute in Hbody. injection Hbody as <-.
    vm_compute in Hd. injection Hd as <-.
    vm_compute in Hv. discriminate Hv.
Qed.

Example decrease_unsorted_value :
  decrease [mkUnpaid 1 20; mkUnpaid 2 5] = decrease_object 1 20 20.
Proof. reflexivity. Qed.


(** C2.  On a chain with a last block, [GET /work/detailed] answers a JSON
    object whose [block_value] is the base block value of the last block's
    id plus the count of unpaid names; [base_value] and [unpaid] carry the
    two summands. *)
Theorem block_value_is_base_plus_unpaid (e : Env) (lastBlock : Block) :
  blocks_getLastBlock e = Some lastBlock →
  ∃ body,
    result (get_work_detailed e) = SendJson body
    ∧ json_get "block_value" body =
        Some (JNum (blocks_getBaseBlockValue e (block_id lastBlock)
                    + names_getUnpaidNameCount e))
    ∧ json_get "base_value" body =
        Some (JNum (blocks_getBaseBlockValue e (block_id lastBlock)))
    ∧ json_get "unpaid" body = Some (JNum (names_getUnpaidNameCount e)).
Proof.
  intros Hlast. eexists. split; [by apply work_detailed_body|]. done.
Qed.

Lemma block_value_is_base_plus_unpaid_witness :
  blocks_getLastBlock Demo.env = Some (mkBlock 4)
  ∧ ∃ body,
      result (get_work_detailed Demo.env) = SendJson body
      ∧ json_get "block_value" body = Some (JNum 28).
Proof.
  split; [reflexivity|].
  destruct (block_value_is_base_plus_unpaid Demo.env (mkBlock 4) eq_refl)
    as (body & Hres & Hbv & _).
  exists body. split; [exact Hres|exact Hbv].
Defined.

End WorkFacts.

(** ** Strings and decimal renderings *)

Section Strings.

Lemma string_app_cons c (s t : string) : String c s +:+ t = String c (s +:+ t).
Proof. reflexivity. Qed.

Lemma string_app_nil_l (s : string) : EmptyString +:+ s = s.
Proof. reflexivity. Qed.

Lemma string_app_nil_r (s : string) : s +:+ EmptyString = s.
Proof.
  induction s as [|c s IH]; [done|]. by rewrite string_app_cons, IH.
Qed.

Lemma string_app_assoc (s1 s2 s3 : string) :
  (s1 +:+ s2) +:+ s3 = s1 +:+ (s2 +:+ s3).
Proof.
  induction s1 as [|c s1 IH]; [done|]. by rewrite !string_app_cons, IH.
Qed.

Lemma string_app_length (s1 s2 : string) :
  String.length (s1 +:+ s2) = (String.length s1 + String.length s2)%nat.
Proof.
  induction s1 as [|c s1 IH]; [done|].
  rewrite string_app_cons. cbn [String.length]. by rewrite IH.
Qed.

Lemma zeros_length n : String.length (Moment.zeros n) = n.
Proof. induction n as [|n IH]; simpl; [done|by f_equal]. Qed.

Lemma substr0_length s n :
  (n ≤ String.length s)%nat → String.length (JS.substr0 s n) = n.
Proof.
  unfold JS.substr0. revert s.
  induction n as [|n IH]; intros [|c s]; cbn; try done; try lia.
  intros Hn. rewrite IH; [done|lia].
Qed.

Lemma concat_records_cons {A} (f : A → string) x l :
  concat_records f (x :: l) = f x +:+ concat_records f l.
Proof.
  unfold concat_records. destruct l as [|y l].
  - cbn. symmetry. apply string_app_nil_r.
  - reflexivity.
Qed.

(** A [forEach] whose callback appends one record to [out] builds the
    concatenation of the records, in row order. *)
Lemma forEach_appends {A} (each : string → A → string) (f : A → string) l out :
  (∀ out x, each out x = out +:+ f x) →
  JS.forEach l each out = out +:+ concat_records f l.
Proof.
  intros Heach. unfold JS.forEach. revert out.
  induction l as [|x l IH]; intros out.
  - cbn. by rewrite string_app_nil_r.
  - cbn [fold_left]. rewrite IH, Heach, concat_records_cons.
    apply string_app_assoc.
Qed.

Lemma concat_records_ext {A} (f g : A → string) l :
  Forall (λ x, f x = g x) l → concat_records f l = concat_records g l.
Proof.
  induction 1 as [|x l Hx Hl IH]; [done|].
  by rewrite !concat_records_cons, Hx, IH.
Qed.

Lemma concat_records_length {A} (f : A → string) l w :
  Forall (λ x, String.length (f x) = w) l →
  String.length (concat_records f l) = (w * length l)%nat.
Proof.
  induction 1 as [|x l Hx Hl IH].
  - cbn. lia.
  - rewrite concat_records_cons, string_app_length, Hx, IH. cbn. lia.
Qed.

Lemma pretty_N_char_digit x : is_digit (pretty_N_char x) = true.
Proof. unfold pretty_N_char. by repeat case_match. Qed.

Lemma pretty_N_go_digits x s :
  all_digits s = true → all_digits (pretty_N_go x s) = true.
Proof.
  revert s. induction (N.lt_wf_0 x) as [x _ IH]; intros s Hs.
  destruct (decide (x = 0%N)) as [->|Hx]; [by rewrite pretty_N_go_0|].
  rewrite pretty_N_go_step by lia.
  apply IH; [apply N.div_lt; lia|].
  cbn. by rewrite pretty_N_char_digit.
Qed.

Lemma pretty_N_go_length x s k :
  (x < 10 ^ N.of_nat k)%N →
  (String.length (pretty_N_go x s) ≤ String.length s + k)%nat.
Proof.
  revert x s. induction k as [|k IH]; intros x s Hx.
  - assert (x = 0%N) as -> by (cbn in Hx; lia).
    rewrite pretty_N_go_0. lia.
  - destruct (decide (x = 0%N)) as [->|Hx0]; [rewrite pretty_N_go_0; lia|].
    rewrite pretty_N_go_step by lia.
    etrans; [apply IH|cbn; lia].
    apply N.Div0.div_lt_upper_bound.
    by rewrite Nat2N.inj_succ, N.pow_succ_r' in Hx.
Qed.

Lemma pretty_N_length x k :
  (x < 10 ^ N.of_nat (S k))%N → (String.length (pretty x) ≤ S k)%nat.
Proof.
  intros Hx. unfold pretty, pretty_N. case_decide; [cbn; lia|].
  etrans; [by apply pretty_N_go_length|]. cbn. lia.
Qed.

Lemma pretty_Z_digits n : 0 ≤ n → all_digits (pretty n) = true.
Proof.
  destruct n as [|p|p]; [done| |lia]. intros _.
  unfold pretty, pretty_Z, pretty, pretty_positive, pretty, pretty_N.
  case_decide; [done|]. by apply pretty_N_go_digits.
Qed.

Lemma pretty_Z_length n k :
  0 ≤ n < 10 ^ Z.of_nat (S k) → (String.length (pretty n) ≤ S k)%nat.
Proof.
  intros [Hn Hk]. destruct n as [|p|p]; [cbn; lia| |lia].
  apply (pretty_N_length (N.pos p)).
  apply N2Z.inj_lt. rewrite N2Z.inj_pow, nat_N_Z. done.
Qed.

(** Zero filling prints exactly [width] characters when the number fits. *)
Lemma zeroFill_length n k :
  (N.of_nat n < 10 ^ N.of_nat (S k))%N →
  String.length (Moment.zeroFill n (S k)) = S k.
Proof.
  intros Hn. unfold Moment.zeroFill.
  rewrite string_app_length, zeros_length.
  pose proof (pretty_N_length (N.of_nat n) k Hn) as Hlen.
  unfold pretty at 1 2, pretty_nat. lia.
Qed.

(** The padding modelled for [utils.padDigits] prints exactly eight digits
    for a number below 10^8. *)
Lemma padDigits_8 n :
  0 ≤ n < 100000000 →
  String.length (SpecModel.padDigits n 8) = 8%nat
  ∧ all_digits (SpecModel.padDigits n 8) = true.
Proof.
  intros Hn. unfold SpecModel.padDigits, JS.Number_toString.
  pose proof (pretty_Z_length n 7 ltac:(cbn; lia)) as Hlen.
  split.
  - rewrite string_app_length, zeros_length.
    change (Z.to_nat 8) with 8%nat. lia.
  - pose proof (pretty_Z_digits n ltac:(lia)) as Hd.
    change (Z.to_nat 8) with 8%nat.
    generalize (8 - String.length (pretty n))%nat as m.
    induction m as [|m IH]; cbn; done.
Qed.

(** A number of nine digits is left as it is. *)
Example padDigits_nine_digits :
  SpecModel.padDigits 123456789 8 = "123456789"
  ∧ SpecModel.padDigits 25 8 = "00000025".
Proof. split; reflexivity. Qed.

Lemma format_listtx t :
  Moment.format t "MMM DD HH:mm"
  = Moment.monthsShort (Moment.month t) +:+ " "
    +:+ Moment.zeroFill (Moment.day t) 2 +:+ " "
    +:+ Moment.zeroFill (Moment.hour t) 2 +:+ ":"
    +:+ Moment.zeroFill (Moment.minute t) 2 +:+ EmptyString.
Proof. reflexivity. Qed.

Lemma format_richapi t :
  Moment.format t "DD MMM YYYY"
  = Moment.zeroFill (Moment.day t) 2 +:+ " "
    +:+ Moment.monthsShort (Moment.month t) +:+ " "
    +:+ Moment.zeroFill (Moment.year t) 4 +:+ EmptyString.
Proof. reflexivity. Qed.

Lemma monthsShort_length m : String.length (Moment.monthsShort m) = 3%nat.
Proof. by destruct m. Qed.

Lemma format_listtx_length t :
  calendar t → String.length (Moment.format t "MMM DD HH:mm") = 12%nat.
Proof.
  intros (_ & Hd & Hh & Hm).
  rewrite format_listtx, !string_app_length, monthsShort_length.
  rewrite !(zeroFill_length _ 1) by (cbn; lia).
  reflexivity.
Qed.

Lemma format_richapi_length t :
  calendar t → String.length (Moment.format t "DD MMM YYYY") = 11%nat.
Proof.
  intros (Hy & Hd & _).
  rewrite format_richapi, !string_app_length, monthsShort_length.
  rewrite (zeroFill_length _ 1), (zeroFill_length _ 3) by (cbn; lia).
  reflexivity.
Qed.

End Strings.

(** ** The legacy query modes of [GET /] *)

Module LegacyFacts.
Import AddressRoutes.

(** *** Which branch serves a request *)

Lemma get_root_getbalance e req v :
  selects_getbalance req v →
  get_root e req =
    (match addresses_getAddress e v with
     | Some a => Send (JS.Number_toString (addr_balance a))
     | None => Send "0"
     end, [call_addresses_getAddress v]).
Proof.
  unfold selects_getbalance, get_root. intros ->.
  unfold bind, getAddress, called; cbn.
  by destruct (addresses_getAddress e v).
Qed.

Lemma get_root_richapi e req :
  selects_richapi req →
  get_root e req =
    (Send (JS.forEach (rows (addresses_getRich e)) (richapi_each e) EmptyString),
     [call_addresses_getRich]).
Proof.
  unfold selects_richapi, get_root. intros (-> & -> & [x ->]).
  reflexivity.
Qed.

Lemma get_root_listtx e req v :
  selects_listtx req v →
  get_root e req =
    match addresses_getAddress e v with
    | Some a =>
        let results :=
          tx_getTransactionsByAddress e (addr_address a) (listtx_limit req) 0 true in
        (match results_rows results with
         | Some rows =>
             Send (JS.forEach rows (listtx_each e req a) EmptyString +:+ "end")
         | None => TypeError
         end,
         [call_addresses_getAddress v;
          call_tx_getTransactionsByAddress (addr_address a) (listtx_limit req) 0 true])
    | None => (Send "Error4", [call_addresses_getAddress v])
    end.
Proof.
  unfold selects_listtx, get_root. intros (-> & -> & -> & ->).
  unfold bind, getAddress, getTransactionsByAddress, called; cbn.
  destruct (addresses_getAddress e v) as [a|]; [|done].
  fold (listtx_limit req).
  by destruct (results_rows _).
Qed.

(** *** The callbacks append one record each *)

Lemma richapi_each_appends e out a :
  richapi_each e out a = out +:+ richapi_record e a.
Proof.
  unfold richapi_each, richapi_record. by rewrite !string_app_assoc.
Qed.

Lemma listtx_each_appends e req a out t :
  listtx_each e req a out t
  = out +:+ listtx_record e (JS.defined (query req !! "id")) a t.
Proof.
  unfold listtx_each, listtx_record.
  destruct (listtx_peer_sign a t) as [peer sign]; cbn [fst snd].
  destruct (JS.defined (query req !! "id"));
    by rewrite !string_app_assoc, ?string_app_nil_r.
Qed.

(** *** Counterpart and sign *)

Lemma absent_or_shorter_spec s :
  JS.absent_or_shorter s 10 = true ↔ absent_or_short s.
Proof.
  unfold JS.absent_or_shorter, absent_or_short.
  destruct s as [s|]; [|done].
  rewrite orb_true_iff, bool_decide_eq_true, Nat.ltb_lt.
  split; [|by right]. intros [->|?]; [cbn; lia|done].
Qed.

Lemma absent_or_shorter_false s :
  JS.absent_or_shorter s 10 = false ↔
  ∃ s', s = Some s' ∧ (10 ≤ String.length s')%nat.
Proof.
  rewrite <-not_true_iff_false, absent_or_shorter_spec.
  destruct s as [s|]; cbn.
  - split; [intros; exists s; split; [done|lia]|].
    intros (s' & [= <-] & ?). lia.
  - split; [done|]. by intros (s' & [=] & _).
Qed.

Lemma listtx_peer_shape a t :
  (listtx_peer_sign a t).1 =
    if JS.absent_or_shorter (tx_to t) 10 then Some "N/A(Names)"
    else if JS.absent_or_shorter (tx_from t) 10 then Some "N/A(Mined)"
    else counterpart a t.
Proof.
  unfold listtx_peer_sign, counterpart.
  repeat case_decide;
    destruct (JS.absent_or_shorter (tx_to t) 10),
             (JS.absent_or_shorter (tx_from t) 10); reflexivity.
Qed.

Lemma listtx_sign_shape a t :
  (listtx_peer_sign a t).2 =
    if decide (tx_to t = Some (addr_address a)) then "+"
    else if decide (tx_from t = Some (addr_address a)) then "-"
    else EmptyString.
Proof. unfold listtx_peer_sign. by repeat case_decide. Qed.

Lemma to_string_or_sentinel peer sentinel :
  JS.to_string (if JS.absent_or_shorter peer 10 then Some sentinel else peer)
  = peer_or_sentinel peer sentinel.
Proof.
  unfold JS.absent_or_shorter, peer_or_sentinel.
  destruct peer as [s|]; [|done].
  destruct (Nat.leb_spec 10 (String.length s)) as [Hs|Hs].
  - rewrite (proj2 (Nat.ltb_ge _ _)) by lia.
    rewrite bool_decide_eq_false_2; [done|].
    intros ->. cbn in Hs. lia.
  - rewrite (proj2 (Nat.ltb_lt _ _)) by lia.
    by rewrite orb_true_r.
Qed.

(** On the rows of an address of ten characters or more the handler prints
    the line the specification describes. *)
Lemma listtx_record_legacy_line e wantId a t :
  (10 ≤ String.length (addr_address a))%nat →
  SpecModel.involves (addr_address a) t →
  listtx_record e wantId a t = legacy_line e wantId (addr_address a) t.
Proof.
  intros Hlen Hinv. unfold listtx_record, legacy_line.
  rewrite listtx_peer_shape, listtx_sign_shape. unfold counterpart.
  assert (JS.absent_or_shorter (Some (addr_address a)) 10 = false) as Hself.
  { apply absent_or_shorter_false. by eexists. }
  case_bool_decide as Hto; case_decide; try done.
  - (* credit *)
    rewrite Hto, Hself. by rewrite to_string_or_sentinel.
  - (* debit *)
    destruct Hinv as [Hfrom|?]; [|done].
    case_decide; [|done].
    rewrite Hfrom, Hself.
    destruct (JS.absent_or_shorter (tx_to t) 10) eqn:Hto'.
    + apply absent_or_shorter_spec in Hto'.
      unfold peer_or_sentinel, absent_or_short in *.
      destruct (tx_to t) as [s|]; [|done].
      by rewrite (proj2 (Nat.leb_gt 10 (String.length s))) by lia.
    + apply absent_or_shorter_false in Hto' as (s & -> & Hs).
      unfold peer_or_sentinel.
      by rewrite (proj2 (Nat.leb_le 10 (String.length s))) by lia.
Qed.

Lemma peer_or_sentinel_length peer sentinel :
  at_most_ten peer → String.length sentinel = 10%nat →
  String.length (peer_or_sentinel peer sentinel) = 10%nat.
Proof.
  unfold at_most_ten, peer_or_sentinel.
  destruct peer as [s|]; [|done]. intros Hs Hsen.
  destruct (Nat.leb_spec 10 (String.length s)); lia.
Qed.

Lemma legacy_line_length e wantId addressId t :
  listtx_row_fits e t →
  String.length (legacy_line e wantId addressId t)
  = (if wantId then 39 else 31)%nat.
Proof.
  intros (Hcal & Hfrom & Hto & Hv & Hi). unfold legacy_line.
  rewrite !string_app_length, format_listtx_length, Hv by done.
  assert (String.length
            (if bool_decide (tx_to t = Some addressId)
             then peer_or_sentinel (tx_from t) "N/A(Mined)"
             else peer_or_sentinel (tx_to t) "N/A(Names)") = 10%nat) as ->.
  { case_bool_decide; by apply peer_or_sentinel_length. }
  assert (String.length
            (if bool_decide (tx_to t = Some addressId) then "+" else "-")
          = 1%nat) as -> by (by case_bool_decide).
  destruct wantId; [by rewrite Hi|done].
Qed.

Lemma richapi_record_length e a :
  richapi_row_fits e a → String.length (richapi_record e a) = 29%nat.
Proof.
  intros (Ha & Hb & Hcal). unfold richapi_record.
  by rewrite !string_app_length, substr0_length, Hb, format_richapi_length.
Qed.

(** *** [getbalance] *)

(** C4.  A request served by the [getbalance] mode (a non-empty
    [getbalance] parameter) is answered with the balance of the named address
    as a decimal string and nothing else when the address exists: the string
    determines the balance and, for a balance that is not negative, consists
    of digits only; when the address is unknown the body is ["0"]. *)
Theorem getbalance_plaintext (e : Env) (req : Request) (v : string) :
  selects_getbalance req v →
  (∀ a, addresses_getAddress e v = Some a →
     result (get_root e req) = Send (JS.Number_toString (addr_balance a))
     ∧ (∀ n, JS.Number_toString n = JS.Number_toString (addr_balance a) →
             n = addr_balance a)
     ∧ (0 ≤ addr_balance a →
        all_digits (JS.Number_toString (addr_balance a)) = true))
  ∧ (addresses_getAddress e v = None → result (get_root e req) = Send "0").
Proof.
  intros Hsel. rewrite (get_root_getbalance e req v Hsel).
  unfold result. cbn [fst].
  split.
  - intros a ->. split; [done|]. split.
    + intros n Hn. by apply (inj pretty).
    + apply pretty_Z_digits.
  - by intros ->.
Qed.

Lemma getbalance_plaintext_witness :
  selects_getbalance Demo.getbalance_request Demo.bob
  ∧ result (get_root Demo.env Demo.getbalance_request) = Send "4500000".
Proof.
  assert (selects_getbalance Demo.getbalance_request Demo.bob) as Hsel
    by (vm_compute; reflexivity).
  split; [exact Hsel|].
  destruct (getbalance_plaintext Demo.env _ _ Hsel) as [Hknown _].
  destruct (Hknown (mkAddress Demo.bob 4500000 4500025 25
                      (Moment.mkDate 2015 Moment.Dec 24 18 5) (Some "hello"))
              eq_refl) as [Hbody _].
  exact Hbody.
Defined.

(** *** [richapi] *)

(** C6.  A request served by the [richapi] mode is answered with the
    records of the rich-list rows one after the other, in row order and with
    nothing between or after them; a record is the first ten characters of the
    address, then the balance padded to eight digits, then the first-seen date
    as [DD MMM YYYY].  A record whose address has ten characters or more,
    whose padded balance has eight characters and whose date has a year of at
    most four digits is 29 characters wide. *)
Theorem richapi_records (e : Env) (req : Request) :
  selects_richapi req →
  let rich := rows (addresses_getRich e) in
  result (get_root e req) = Send (concat_records (richapi_record e) rich)
  ∧ (∀ a, richapi_record e a
          = JS.substr0 (addr_address a) 10
            +:+ utils_padDigits e (addr_balance a) 8
            +:+ Moment.format (addr_firstseen a) "DD MMM YYYY")
  ∧ (Forall (richapi_row_fits e) rich →
     Forall (λ a, String.length (richapi_record e a) = 29%nat) rich
     ∧ String.length (concat_records (richapi_record e) rich)
       = (29 * length rich)%nat).
Proof.
  intros Hsel rich. rewrite (get_root_richapi e req Hsel).
  unfold result. cbn [fst].
  split; [|split; [done|]].
  - f_equal. rewrite (forEach_appends _ (richapi_record e))
      by apply richapi_each_appends.
    apply string_app_nil_l.
  - intros Hfit.
    assert (Forall (λ a, String.length (richapi_record e a) = 29%nat) rich) as H29.
    { eapply Forall_impl; [exact Hfit|]. apply richapi_record_length. }
    split; [exact H29|]. by apply concat_records_length.
Qed.

Lemma richapi_records_witness :
  selects_richapi Demo.richapi_request
  ∧ Forall (richapi_row_fits Demo.env) (rows (addresses_getRich Demo.env))
  ∧ result (get_root Demo.env Demo.richapi_request)
    = Send "kbob0000000450000024 Dec 2015kalice00000000012507 Feb 2016"
  ∧ String.length
      (concat_records (richapi_record Demo.env) (rows (addresses_getRich Demo.env)))
    = 58%nat.
Proof.
  assert (selects_richapi Demo.richapi_request) as Hsel.
  { repeat split; [vm_compute; reflexivity..|]. by eexists. }
  assert (Forall (richapi_row_fits Demo.env) (rows (addresses_getRich Demo.env)))
    as Hfit.
  { repeat constructor; vm_compute; (reflexivity || lia || (intros [=])). }
  split; [exact Hsel|]. split; [exact Hfit|].
  destruct (richapi_records Demo.env _ Hsel) as (Hbody & _ & Hwidth).
  split; [exact Hbody|]. exact (proj2 (Hwidth Hfit)).
Defined.

(** *** [listtx] *)

(** The body the callback builds from a page that is at hand: the lines of
    the listed transactions one after the other, in row order and with nothing
    between them, followed by [end]; a line is the time as [MMM DD HH:mm],
    the counterpart or a sentinel, the sign, the value padded to eight digits
    and, exactly when the request has an [id] parameter, the id padded to
    eight digits.  On the rows of an address of ten characters these are the
    lines of the specification, 31 characters wide, 39 with the id, when
    their fields have their nominal widths. *)
Lemma listtx_body_of_returned_page e req v a page :
  selects_listtx req v →
  addresses_getAddress e v = Some a →
  tx_getTransactionsByAddress e (addr_address a) (listtx_limit req) 0 true
    = JS.Returned page →
  let txs := rows page in
  let wantId := JS.defined (query req !! "id") in
  result (get_root e req)
    = Send (concat_records (listtx_record e wantId a) txs +:+ "end")
  ∧ ((10 ≤ String.length (addr_address a))%nat →
     Forall (SpecModel.involves (addr_address a)) txs →
     result (get_root e req)
       = Send (concat_records (legacy_line e wantId (addr_address a)) txs
               +:+ "end")
     ∧ (Forall (listtx_row_fits e) txs →
        Forall (λ t, String.length (legacy_line e wantId (addr_address a) t)
                     = if wantId then 39%nat else 31%nat) txs)).
Proof.
  intros Hsel Ha Hpage. rewrite (get_root_listtx e req v Hsel), Ha.
  cbv zeta. rewrite Hpage. unfold result. cbn [fst results_rows].
  rewrite (forEach_appends _ (listtx_record e (JS.defined (query req !! "id")) a))
    by apply listtx_each_appends.
  rewrite string_app_nil_l.
  split; [done|]. intros Hlen Hinv.
  split.
  - do 2 f_equal. apply concat_records_ext.
    eapply Forall_impl; [exact Hinv|]. cbn.
    intros t Ht. by apply listtx_record_legacy_line.
  - intros Hfit. eapply Forall_impl; [exact Hfit|]. cbn.
    intros t Ht. by apply legacy_line_length.
Qed.

(** C5.  A request served by the [listtx] mode is answered with the
    literal [Error4] when the address is unknown.  When the address exists
    the handler fetches its transactions without awaiting the fetch: whenever
    [tx.getTransactionsByAddress] hands back a promise, as the awaited store
    reads beside it do, [results.rows] is [undefined], the handler dies with
    a type error right after the fetch and sends no body at all, neither the
    lines nor [end]. *)
Theorem listtx_known_address_throws (e : Env) (req : Request) (v : string) :
  selects_listtx req v →
  (addresses_getAddress e v = None → result (get_root e req) = Send "Error4")
  ∧ (∀ a page,
       addresses_getAddress e v = Some a →
       tx_getTransactionsByAddress e (addr_address a) (listtx_limit req) 0 true
         = JS.Promise page →
       get_root e req
       = (TypeError,
          [call_addresses_getAddress v;
           call_tx_getTransactionsByAddress (addr_address a)
             (listtx_limit req) 0 true])).
Proof.
  intros Hsel. rewrite (get_root_listtx e req v Hsel).
  split; [by intros ->|].
  intros a page -> Hpage. cbv zeta. by rewrite Hpage.
Qed.

Lemma listtx_known_address_throws_witness :
  selects_listtx Demo.listtx_request Demo.alice
  ∧ is_Some (addresses_getAddress Demo.env Demo.alice)
  ∧ get_root Demo.env Demo.listtx_request
    = (TypeError,
       [call_addresses_getAddress Demo.alice;
        call_tx_getTransactionsByAddress Demo.alice 500 0 true]).
Proof.
  assert (selects_listtx Demo.listtx_request Demo.alice) as Hsel
    by (repeat split; vm_compute; reflexivity).
  split; [exact Hsel|]. split; [by eexists|].
  destruct (listtx_known_address_throws Demo.env _ _ Hsel) as [_ Hknown].
  exact (Hknown (mkAddress Demo.alice 125 150 25
                   (Moment.mkDate 2016 Moment.Feb 7 9 30) None)
           (SpecModel.listByAddress Demo.log Demo.alice 500 0 true)
           eq_refl eq_refl).
Defined.

(** C9.  On a known address a request served by the [listtx] mode makes,
    after the address lookup, one fetch of the transactions of that address,
    with mined transactions included, offset 0 and limit 3 when the request
    has an [overview] parameter and 500 when it has none. *)
Theorem listtx_fetch_arguments (e : Env) (req : Request) (v : string) (a : Address) :
  selects_listtx req v →
  addresses_getAddress e v = Some a →
  ∃ limit,
    trace (get_root e req)
      = [call_addresses_getAddress v;
         call_tx_getTransactionsByAddress (addr_address a) limit 0 true]
    ∧ (is_Some (query req !! "overview") → limit = 3)
    ∧ (query req !! "overview" = None → limit = 500).
Proof.
  intros Hsel Ha. rewrite (get_root_listtx e req v Hsel), Ha.
  exists (listtx_limit req). unfold trace. cbn [snd].
  split; [done|]. unfold listtx_limit.
  split; [by intros [x ->]|by intros ->].
Qed.

Lemma listtx_fetch_arguments_witness :
  selects_listtx Demo.listtx_request Demo.alice
  ∧ is_Some (addresses_getAddress Demo.env Demo.alice)
  ∧ trace (get_root Demo.env Demo.listtx_request)
    = [call_addresses_getAddress Demo.alice;
       call_tx_getTransactionsByAddress Demo.alice 500 0 true].
Proof.
  assert (selects_listtx Demo.listtx_request Demo.alice) as Hsel
    by (repeat split; vm_compute; reflexivity).
  split; [exact Hsel|]. split; [by eexists|].
  destruct (listtx_fetch_arguments Demo.env _ _ _ Hsel eq_refl)
    as (limit & Htrace & _ & H500).
  rewrite Htrace, H500; [reflexivity|]. vm_compute. reflexivity.
Defined.



(** A mined transaction to the queried address: sentinel and [+]. *)
Example mined_credit_line :
  listtx_peer_sign
    (mkAddress Demo.alice 125 150 25 (Moment.mkDate 2016 Moment.Feb 7 9 30) None)
    (mkTransaction 1 None (Some Demo.alice) 50
       (Moment.mkDate 2016 Moment.Feb 7 9 30) mined)
  = (Some "N/A(Mined)", "+").
Proof. reflexivity. Qed.

(** *** Field shape, not the stored type *)

(** C7 (as amended).  In the [listtx] rendering the counterpart shown is
    chosen from the [from] and [to] fields alone: [N/A(Names)] when [to] is
    absent or shorter than ten characters, otherwise [N/A(Mined)] when [from]
    is absent or shorter than ten characters, otherwise the counterpart
    itself.  Two transactions with the same [from] and [to] get the same
    counterpart and sign whatever their stored types are. *)
Theorem sentinel_from_field_shape (a : Address) (t : Transaction) :
  (listtx_peer_sign a t).1 =
    (if JS.absent_or_shorter (tx_to t) 10 then Some "N/A(Names)"
     else if JS.absent_or_shorter (tx_from t) 10 then Some "N/A(Mined)"
     else counterpart a t)
  ∧ (∀ t', tx_from t' = tx_from t → tx_to t' = tx_to t →
           listtx_peer_sign a t' = listtx_peer_sign a t).
Proof.
  split; [apply listtx_peer_shape|].
  intros t' Hfrom Hto. unfold listtx_peer_sign. by rewrite Hfrom, Hto.
Qed.

Lemma sentinel_from_field_shape_witness :
  let a := mkAddress Demo.alice 125 150 25
             (Moment.mkDate 2016 Moment.Feb 7 9 30) None in
  let t := mkTransaction 1 None (Some Demo.alice) 50
             (Moment.mkDate 2016 Moment.Feb 7 9 30) mined in
  let t' := mkTransaction 1 None (Some Demo.alice) 50
              (Moment.mkDate 2016 Moment.Feb 7 9 30) transfer in
  tx_from t' = tx_from t ∧ tx_to t' = tx_to t
  ∧ listtx_peer_sign a t' = listtx_peer_sign a t.
Proof.
  intros a t t'. split; [reflexivity|]. split; [reflexivity|].
  exact (proj2 (sentinel_from_field_shape a t) t' eq_refl eq_refl).
Defined.

(** C7, as the specification words it, fails.  Two transfers to the
    queried address, of the same stored type, value, id and time: the one whose [from] has three characters is shown as
    [N/A(Mined)], the one whose [from] has ten is shown with its peer. *)
Lemma sentinel_depends_on_length : ¬ sentinel_decided_by_type.
Proof.
  intros H.
  specialize (H
    (mkAddress Demo.alice 125 150 25 (Moment.mkDate 2016 Moment.Feb 7 9 30) None)
    (mkTransaction 2 (Some "kbob000000") (Some Demo.alice) 100
       (Moment.mkDate 2016 Moment.Feb 8 10 0) transfer)
    (mkTransaction 2 (Some "bob") (Some Demo.alice) 100
       (Moment.mkDate 2016 Moment.Feb 8 10 0) transfer)
    eq_refl).
  vm_compute in H. discriminate H.
Qed.

End LegacyFacts.

(** ** [GET /addresses/:address/transactions] *)

Module TransactionsFacts.
Import AddressRoutes.

Lemma listByAddress_rows log addressId limit offset includeMined t :
  t ∈ rows (SpecModel.listByAddress log addressId limit offset includeMined) →
  t ∈ log ∧ SpecModel.involves addressId t
  ∧ (includeMined = true ∨ tx_type t ≠ mined).
Proof.
  unfold SpecModel.listByAddress; cbn [rows].
  intros Ht%subseteq_take%subseteq_drop.
  apply (proj1 (sort_elem tx_id _ _)) in Ht.
  apply list_elem_of_filter in Ht. tauto.
Qed.

Lemma listByAddress_with_mined log addressId limit offset :
  rows (SpecModel.listByAddress log addressId limit offset true)
  = take limit (drop offset
      (JS.sort (λ a b, tx_id b - tx_id a)
         (filter (SpecModel.involves addressId) log))).
Proof.
  unfold SpecModel.listByAddress; cbn [rows]. do 3 f_equal.
  apply list_filter_iff. intros t. tauto.
Qed.

Lemma get_address_transactions_trace e req :
  trace (get_address_transactions e req)
  = [call_txController_getTransactionsByAddress (params_address req)
       (query req !! "limit") (query req !! "offset")
       (negb (JS.defined (query req !! "excludeMined")))].
Proof.
  unfold get_address_transactions, controller_getTransactionsByAddress,
    bind, called, trace. cbn [fst snd].
  by destruct (txController_getTransactionsByAddress e _ _ _ _).
Qed.

(** C8.  [GET /addresses/:address/transactions] makes one call to the
    controller, with the address, [limit] and [offset] of the request and
    with [includeMined] false exactly when the request has an [excludeMined]
    parameter.  With the listing of the specification behind the controller,
    a request that passes validation is answered with the JSON of the listed
    rows: none of them has type [mined] when [excludeMined] is present, and
    when it is absent they are the page of all the rows of the address, mined
    ones included. *)
Theorem excludeMined_drops_mined (e : Env) (req : Request)
    (validate : string → option string → option string
                → KristError + (string * nat * nat))
    (log : list Transaction) :
  txController_getTransactionsByAddress e = SpecModel.controller validate log →
  (∃ includeMined,
     trace (get_address_transactions e req)
       = [call_txController_getTransactionsByAddress (params_address req)
            (query req !! "limit") (query req !! "offset") includeMined]
     ∧ (includeMined = false ↔ is_Some (query req !! "excludeMined")))
  ∧ (∀ addressId limit offset,
       validate (params_address req) (query req !! "limit") (query req !! "offset")
         = inr (addressId, limit, offset) →
       ∃ txs total,
         result (get_address_transactions e req)
           = SendJson (JObj [
               ("ok", JBool true);
               ("count", JNum (Z.of_nat (length txs)));
               ("total", JNum total);
               ("transactions", JArr (txController_transactionToJSON e <$> txs)) ])
         ∧ Forall (λ t, t ∈ log ∧ SpecModel.involves addressId t) txs
         ∧ (is_Some (query req !! "excludeMined") →
            Forall (λ t, tx_type t ≠ mined) txs)
         ∧ (query req !! "excludeMined" = None →
            txs = take limit (drop offset
                    (JS.sort (λ a b, tx_id b - tx_id a)
                       (filter (SpecModel.involves addressId) log))))).
Proof.
  intros Hctrl. split.
  - eexists. split; [apply get_address_transactions_trace|].
    destruct (query req !! "excludeMined"); cbn.
    + split; [by eexists|done].
    + split; [done|by intros [? [=]]].
  - intros addressId limit offset Hval.
    unfold get_address_transactions, controller_getTransactionsByAddress,
      bind, called, result. cbn [fst snd].
    rewrite Hctrl. unfold SpecModel.controller. rewrite Hval.
    set (page := SpecModel.listByAddress log addressId limit offset _).
    exists (rows page), (total page). cbn [fst ret].
    rewrite length_fmap.
    split; [reflexivity|]. split; [|split].
    + apply Forall_forall. intros t Ht.
      apply listByAddress_rows in Ht. tauto.
    + intros [x Hx]. apply Forall_forall. intros t Ht.
      apply listByAddress_rows in Ht as (_ & _ & [Hinc|Hty]); [|done].
      rewrite Hx in Hinc. done.
    + intros Hx. unfold page. rewrite Hx. cbn [JS.defined negb].
      apply listByAddress_with_mined.
Qed.

Lemma excludeMined_drops_mined_witness :
  txController_getTransactionsByAddress Demo.env
    = SpecModel.controller Demo.validate Demo.log
  ∧ Demo.validate Demo.alice None None = inr (Demo.alice, 50%nat, 0%nat)
  ∧ is_Some (query Demo.transactions_request !! "excludeMined")
  ∧ ∃ txs total,
      result (get_address_transactions Demo.env Demo.transactions_request)
        = SendJson (JObj [
            ("ok", JBool true);
            ("count", JNum (Z.of_nat (length txs)));
            ("total", JNum total);
            ("transactions",
             JArr (txController_transactionToJSON Demo.env <$> txs)) ])
      ∧ Forall (λ t, tx_type t ≠ mined) txs.
Proof.
  split; [reflexivity|]. split; [reflexivity|].
  assert (is_Some (query Demo.transactions_request !! "excludeMined")) as Hex
    by (by eexists).
  split; [exact Hex|].
  destruct (excludeMined_drops_mined Demo.env Demo.transactions_request
              Demo.validate Demo.log eq_refl) as [_ Hlist].
  destruct (Hlist Demo.alice 50%nat 0%nat eq_refl)
    as (txs & total & Hbody & _ & Hnomined & _).
  exists txs, total. split; [exact Hbody|exact (Hnomined Hex)].
Defined.

Example transactions_excluding_mined :
  result (get_address_transactions Demo.env Demo.transactions_request)
  = SendJson (JObj [
      ("ok", JBool true); ("count", JNum 3); ("total", JNum 3);
      ("transactions", JArr [
         JObj [("id", JNum 4); ("value", JNum 25)];
         JObj [("id", JNum 3); ("value", JNum 500)];
         JObj [("id", JNum 2); ("value", JNum 100)] ]) ]).
Proof. vm_compute. reflexivity. Qed.

End TransactionsFacts.

(** * Further properties *)

(** ** Dispatch of [GET /] *)

Module DispatchFacts.
Import AddressRoutes LegacyFacts.

Lemma get_root_alert e req key :
  selects_alert req key →
  get_root e req =
    (Send (match addresses_getAddress e (krist_makeV2Address e key) with
           | Some a => default EmptyString (addr_alert a)
           | None => EmptyString
           end),
     [call_krist_makeV2Address key;
      call_addresses_getAddress (krist_makeV2Address e key)]).
Proof.
  unfold selects_alert, get_root. intros (-> & ->).
  unfold bind, makeV2Address, getAddress, called; cbn.
  by destruct (addresses_getAddress e _).
Qed.

Lemma get_root_none e req : selects_none req → get_root e req = (Next, []).
Proof.
  unfold selects_none, get_root. by intros (-> & -> & -> & ->).
Qed.

(** Every request is served by exactly one branch. *)
Lemma get_root_cases req :
  (∃ v, selects_getbalance req v)
  ∨ (∃ key, selects_alert req key)
  ∨ selects_richapi req
  ∨ (∃ v, selects_listtx req v)
  ∨ selects_none req.
Proof.
  unfold selects_getbalance, selects_alert, selects_richapi, selects_listtx,
    selects_none.
  destruct (JS.truthy (query req !! "getbalance")) as [v|]; [left; by eexists|].
  destruct (JS.truthy (query req !! "alert")) as [k|];
    [right; left; by eexists|].
  destruct (query req !! "richapi") as [r|] eqn:Hr;
    [right; right; left; repeat split; by eexists|].
  destruct (JS.truthy (query req !! "listtx")) as [v|].
  - right; right; right; left. by eexists.
  - by repeat right.
Qed.

Lemma get_root_same_view e req req' :
  same_legacy_view req req' → get_root e req' = get_root e req.
Proof.
  intros [Ht Hp]. unfold get_root, listtx_each.
  rewrite (Ht "getbalance"), (Ht "alert"), (Ht "listtx") by (unfold truthy_tested; auto).
  rewrite (Hp "richapi"), (Hp "overview"), (Hp "id") by (unfold presence_tested; auto).
  reflexivity.
Qed.

(** X1.  The address handler of [GET /] reads six query parameters and
    nothing else of the request: [getbalance], [alert] and [listtx] through
    their truthiness (and value), [richapi], [overview] and [id] through their
    presence.  Two requests that agree on these get the same answer through
    the same calls. *)
Theorem get_root_reads_six_parameters (e : Env) (req req' : Request) :
  same_legacy_view req req' →
  result (get_root e req') = result (get_root e req)
  ∧ trace (get_root e req') = trace (get_root e req).
Proof. intros H. by rewrite (get_root_same_view e req req' H). Qed.

Lemma get_root_reads_six_parameters_witness :
  let req' :=
    mkRequest {[ "listtx" := Demo.alice; "id" := "1"; "limit" := "7";
                 "getbalance" := EmptyString ]} "ignored" in
  same_legacy_view Demo.listtx_request req'
  ∧ result (get_root Demo.env req')
    = result (get_root Demo.env Demo.listtx_request).
Proof.
  intros req'.
  assert (same_legacy_view Demo.listtx_request req') as Hview.
  { split; intros k [->|[->| ->]]; vm_compute; reflexivity. }
  split; [exact Hview|].
  exact (proj1 (get_root_reads_six_parameters Demo.env _ _ Hview)).
Defined.

(** X2.  [getbalance] is tested first: when it has a non-empty value the
    answer and the single address lookup are those of the [getbalance] mode,
    whatever other parameters ([alert], [richapi], [listtx], ...) the request
    carries. *)
Theorem getbalance_served_first (e : Env) (req req' : Request) (v : string) :
  selects_getbalance req v →
  query req' !! "getbalance" = query req !! "getbalance" →
  get_root e req' = get_root e req
  ∧ trace (get_root e req') = [call_addresses_getAddress v].
Proof.
  intros Hsel Hq.
  assert (selects_getbalance req' v) as Hsel'
    by (unfold selects_getbalance; by rewrite Hq).
  by rewrite (get_root_getbalance e req v Hsel),
             (get_root_getbalance e req' v Hsel').
Qed.

Lemma getbalance_served_first_witness :
  let req' :=
    mkRequest {[ "getbalance" := Demo.bob; "listtx" := Demo.alice;
                 "richapi" := EmptyString; "alert" := "secret" ]} EmptyString in
  selects_getbalance Demo.getbalance_request Demo.bob
  ∧ query req' !! "getbalance" = query Demo.getbalance_request !! "getbalance"
  ∧ get_root Demo.env req' = (Send "4500000", [call_addresses_getAddress Demo.bob]).
Proof.
  intros req'.
  assert (selects_getbalance Demo.getbalance_request Demo.bob) as Hsel
    by (vm_compute; reflexivity).
  assert (query req' !! "getbalance"
          = query Demo.getbalance_request !! "getbalance") as Hq
    by (vm_compute; reflexivity).
  split; [exact Hsel|]. split; [exact Hq|].
  rewrite (proj1 (getbalance_served_first Demo.env _ req' _ Hsel Hq)).
  vm_compute. reflexivity.
Defined.

Lemma without_same_view k req :
  truthy_tested k → query req !! k = Some EmptyString →
  same_legacy_view req (without k req).
Proof.
  intros Hk Hempty. unfold without. split; intros k' Hk'; cbn [query].
  - destruct (decide (k' = k)) as [->|Hne].
    + by rewrite lookup_delete_eq, Hempty.
    + by rewrite lookup_delete_ne.
  - rewrite lookup_delete_ne; [done|].
    intros ->. unfold truthy_tested, presence_tested in *.
    destruct Hk as [->|[->| ->]]; destruct Hk' as [?|[?|?]]; discriminate.
Qed.

(** X3.  For [getbalance], [alert] and [listtx] an empty value counts as no
    parameter at all: the request is answered exactly as the request without
    that parameter. *)
Theorem empty_value_counts_as_absent (e : Env) (req : Request) (k : string) :
  truthy_tested k →
  query req !! k = Some EmptyString →
  get_root e req = get_root e (without k req).
Proof.
  intros Hk Hempty. symmetry.
  by apply get_root_same_view, without_same_view.
Qed.

Lemma empty_value_counts_as_absent_witness :
  let req :=
    mkRequest {[ "getbalance" := EmptyString; "listtx" := "nobody" ]}
      EmptyString in
  truthy_tested "getbalance"
  ∧ query req !! "getbalance" = Some EmptyString
  ∧ result (get_root Demo.env req) = Send "Error4".
Proof.
  intros req.
  assert (truthy_tested "getbalance") as Hk by (by left).
  assert (query req !! "getbalance" = Some EmptyString) as Hq
    by (vm_compute; reflexivity).
  split; [exact Hk|]. split; [exact Hq|].
  rewrite (empty_value_counts_as_absent Demo.env req _ Hk Hq).
  vm_compute. reflexivity.
Defined.

Lemma get_root_sends_or_throws e req :
  ¬ selects_none req →
  (∃ body, result (get_root e req) = Send body)
  ∨ (result (get_root e req) = TypeError
     ∧ ∃ v a, selects_listtx req v ∧ addresses_getAddress e v = Some a).
Proof.
  intros Hnone.
  destruct (get_root_cases req) as [[v H]|[[k H]|[H|[[v H]|H]]]]; [..|done].
  - left. rewrite (get_root_getbalance e req v H). unfold result; cbn.
    destruct (addresses_getAddress e v); by eexists.
  - left. rewrite (get_root_alert e req k H). by eexists.
  - left. rewrite (get_root_richapi e req H). by eexists.
  - rewrite (get_root_listtx e req v H).
    destruct (addresses_getAddress e v) as [a|] eqn:Ha; [|left; by eexists].
    cbv zeta. destruct (results_rows _); [left; by eexists|].
    right. split; [done|]. by exists v, a.
Qed.

(** X4.  The address handler of [GET /] calls [next()] exactly when none of
    its modes applies ([getbalance], [alert] and [listtx] absent or empty,
    [richapi] absent); in that case it has made no call at all.  In every
    other case it either sends a plain-text body or, in the [listtx] mode on
    a known address only, dies with a type error. *)
Theorem passes_on_iff_no_mode (e : Env) (req : Request) :
  (result (get_root e req) = Next ↔ selects_none req)
  ∧ (selects_none req → trace (get_root e req) = [])
  ∧ (¬ selects_none req →
     (∃ body, result (get_root e req) = Send body)
     ∨ (result (get_root e req) = TypeError
        ∧ ∃ v a, selects_listtx req v ∧ addresses_getAddress e v = Some a)).
Proof.
  split; [|split].
  - split.
    + intros Hnext. destruct (decide (selects_none req)) as [|Hn]; [done|].
      destruct (get_root_sends_or_throws e req Hn) as [[body Hb]|[Hb _]];
        congruence.
    + intros H. by rewrite (get_root_none e req H).
  - intros H. by rewrite (get_root_none e req H).
  - apply get_root_sends_or_throws.
Qed.

Lemma passes_on_iff_no_mode_witness :
  let req := mkRequest {[ "getwork" := EmptyString; "listtx" := EmptyString ]}
               EmptyString in
  selects_none req ∧ get_root Demo.env req = (Next, []).
Proof.
  intros req.
  assert (selects_none req) as Hnone by (repeat split; vm_compute; reflexivity).
  split; [exact Hnone|].
  destruct (passes_on_iff_no_mode Demo.env req) as ([_ Hres] & Htr & _).
  apply injective_projections; [exact (Hres Hnone)|exact (Htr Hnone)].
Defined.

(** X5.  In the [getbalance] mode the body ["0"] does not tell an unknown
    address from a known one with nothing on it: the body is ["0"] exactly
    when the address is unknown or its balance is zero. *)
Theorem getbalance_zero_is_ambiguous (e : Env) (req : Request) (v : string) :
  selects_getbalance req v →
  (result (get_root e req) = Send "0"
   ↔ addresses_getAddress e v = None
     ∨ ∃ a, addresses_getAddress e v = Some a ∧ addr_balance a = 0).
Proof.
  intros Hsel. rewrite (get_root_getbalance e req v Hsel).
  unfold result. cbn [fst].
  destruct (addresses_getAddress e v) as [a|]; split.
  - intros [= Hz]. right. exists a. split; [done|].
    by apply (inj pretty).
  - intros [[=]|(a' & [= <-] & ->)]. reflexivity.
  - by left.
  - done.
Qed.

Lemma getbalance_zero_is_ambiguous_witness :
  let req := mkRequest {[ "getbalance" := "kunknown00" ]} EmptyString in
  selects_getbalance req "kunknown00"
  ∧ addresses_getAddress Demo.env "kunknown00" = None
  ∧ result (get_root Demo.env req) = Send "0".
Proof.
  intros req.
  assert (selects_getbalance req "kunknown00") as Hsel
    by (vm_compute; reflexivity).
  split; [exact Hsel|]. split; [reflexivity|].
  apply (getbalance_zero_is_ambiguous Demo.env req _ Hsel).
  left. reflexivity.
Defined.

Lemma append_end_not_Error4 (s : string) : s +:+ "end" ≠ "Error4".
Proof.
  intros H. assert (String.length s = 3%nat) as Hlen.
  { apply (f_equal String.length) in H.
    rewrite string_app_length in H. cbn in H. lia. }
  destruct s as [|c1 [|c2 [|c3 [|c4 s]]]]; try discriminate Hlen.
  discriminate H.
Qed.

(** X6.  In the [listtx] mode the body [Error4] is sent exactly when the
    address is unknown.  For a known address the handler never sends it: it
    either dies with a type error or sends a listing, and a listing ends in
    [end]. *)
Theorem Error4_only_for_unknown (e : Env) (req : Request) (v : string) :
  selects_listtx req v →
  (result (get_root e req) = Send "Error4" ↔ addresses_getAddress e v = None)
  ∧ (∀ a, addresses_getAddress e v = Some a →
       result (get_root e req) = TypeError
       ∨ ∃ lines, result (get_root e req) = Send (lines +:+ "end")).
Proof.
  intros Hsel. rewrite (get_root_listtx e req v Hsel).
  destruct (addresses_getAddress e v) as [a|]; cbv zeta;
    unfold result; cbn [fst]; split.
  - split; [|done]. destruct (results_rows _); [|done].
    intros [= H]. by apply append_end_not_Error4 in H.
  - intros a' [= <-]. destruct (results_rows _); [right; by eexists|by left].
  - done.
  - done.
Qed.

Lemma Error4_only_for_unknown_witness :
  let req := mkRequest {[ "listtx" := Demo.bob; "overview" := EmptyString ]}
               EmptyString in
  selects_listtx req Demo.bob
  ∧ result (get_root Demo.env req) ≠ Send "Error4".
Proof.
  intros req.
  assert (selects_listtx req Demo.bob) as Hsel
    by (repeat split; vm_compute; reflexivity).
  split; [exact Hsel|].
  intros H.
  apply (proj1 (Error4_only_for_unknown Demo.env req _ Hsel)) in H.
  discriminate H.
Defined.

(** X7.  In the [alert] mode the address is looked up under the v2 address
    made from the key, never under the key itself, after exactly one call to
    [krist.makeV2Address]; the body is the alert of that address, and it is
    empty both when the address is unknown and when it has no alert. *)
Theorem alert_looked_up_by_derived_address (e : Env) (req : Request) (key : string) :
  selects_alert req key →
  let from := krist_makeV2Address e key in
  trace (get_root e req)
    = [call_krist_makeV2Address key; call_addresses_getAddress from]
  ∧ ∃ body,
      result (get_root e req) = Send body
      ∧ (addresses_getAddress e from = None → body = EmptyString)
      ∧ (∀ a, addresses_getAddress e from = Some a →
              body = default EmptyString (addr_alert a))
      ∧ (body ≠ EmptyString →
         ∃ a, addresses_getAddress e from = Some a ∧ addr_alert a = Some body).
Proof.
  intros Hsel from. rewrite (get_root_alert e req key Hsel).
  split; [reflexivity|]. eexists. split; [reflexivity|]. fold from.
  destruct (addresses_getAddress e from) as [a|].
  - split; [done|]. split; [by intros ? [= <-]|].
    intros Hne. exists a. split; [done|].
    by destruct (addr_alert a).
  - split; [done|]. split; [done|]. by intros [].
Qed.

Lemma alert_looked_up_by_derived_address_witness :
  let req := mkRequest {[ "alert" := "bob000000secret" ]} EmptyString in
  selects_alert req "bob000000secret"
  ∧ get_root Demo.env req
    = (Send "hello",
       [call_krist_makeV2Address "bob000000secret";
        call_addresses_getAddress Demo.bob]).
Proof.
  intros req.
  assert (selects_alert req "bob000000secret") as Hsel
    by (split; vm_compute; reflexivity).
  split; [exact Hsel|].
  destruct (alert_looked_up_by_derived_address Demo.env req _ Hsel)
    as (Htr & body & Hbody & _ & Hknown & _).
  apply injective_projections.
  - etrans; [exact Hbody|].
    by rewrite (Hknown (mkAddress Demo.bob 4500000 4500025 25
                          (Moment.mkDate 2015 Moment.Dec 24 18 5) (Some "hello"))
                  eq_refl).
  - exact Htr.
Defined.

(** X8.  Whatever the request, the address handler of [GET /] makes at
    most two calls on the [addresses], [krist] and [transactions] modules
    (the formatting helpers are not counted): address lookups, v2-address
    derivations, the rich list or a transaction fetch, and none on the
    controllers, [blocks] or [names].  A transaction fetch always has offset
    0, includes mined transactions and has limit 3 or 500. *)
Theorem get_root_calls (e : Env) (req : Request) :
  Forall legacy_call (trace (get_root e req))
  ∧ (length (trace (get_root e req)) ≤ 2)%nat.
Proof.
  destruct (get_root_cases req) as [[v H]|[[k H]|[H|[[v H]|H]]]].
  - rewrite (get_root_getbalance e req v H). unfold trace; cbn.
    split; [by repeat constructor|lia].
  - rewrite (get_root_alert e req k H). unfold trace; cbn.
    split; [by repeat constructor|lia].
  - rewrite (get_root_richapi e req H). unfold trace; cbn.
    split; [by repeat constructor|lia].
  - rewrite (get_root_listtx e req v H).
    destruct (addresses_getAddress e v); unfold trace; cbn [snd length].
    + split; [|lia].
      constructor; [exact I|]. constructor; [|constructor].
      split; [|done]. unfold listtx_limit. destruct (JS.defined _); auto.
    + split; [by repeat constructor|lia].
  - rewrite (get_root_none e req H). unfold trace; cbn.
    split; [constructor|lia].
Qed.

End DispatchFacts.

(** ** Lines and records of the legacy listings *)

Module LineFacts.
Import AddressRoutes LegacyFacts DispatchFacts.

(** X9.  A [listtx] line never shows [null]: the counterpart the callback
    ends with is always a string.  It is one of the two sentinels, or a
    [from] or [to] of the transaction that has ten characters or more, or,
    for a row that neither comes from nor goes to the queried address, the
    empty string. *)
Theorem listtx_counterpart_is_a_string (a : Address) (t : Transaction) :
  ∃ s,
    (listtx_peer_sign a t).1 = Some s
    ∧ JS.to_string (listtx_peer_sign a t).1 = s
    ∧ (s = "N/A(Mined)" ∨ s = "N/A(Names)"
       ∨ ((tx_from t = Some s ∨ tx_to t = Some s) ∧ (10 ≤ String.length s)%nat)
       ∨ (s = EmptyString
          ∧ tx_to t ≠ Some (addr_address a)
          ∧ tx_from t ≠ Some (addr_address a))).
Proof.
  rewrite listtx_peer_shape.
  destruct (JS.absent_or_shorter (tx_to t) 10) eqn:Hto;
    [exists "N/A(Names)"; auto|].
  destruct (JS.absent_or_shorter (tx_from t) 10) eqn:Hfrom;
    [exists "N/A(Mined)"; auto|].
  apply absent_or_shorter_false in Hto as (sto & Hto & Hlto).
  apply absent_or_shorter_false in Hfrom as (sfrom & Hfrom & Hlfrom).
  unfold counterpart. repeat case_decide.
  - exists sfrom. rewrite Hfrom. auto 10.
  - exists sto. rewrite Hto. auto 10.
  - exists EmptyString. auto 10.
Qed.



Lemma substr0_prefix s n :
  starts_with (JS.substr0 s n) s
  ∧ String.length (JS.substr0 s n) = (n `min` String.length s)%nat.
Proof.
  unfold JS.substr0, starts_with. revert s.
  induction n as [|n IH]; intros [|c s].
  - split; [by exists EmptyString|done].
  - split; [by eexists|done].
  - split; [by exists EmptyString|done].
  - destruct (IH s) as [[rest Hrest] Hlen].
    change (String.substring 0 (S n) (String c s))
      with (String c (String.substring 0 n s)).
    split.
    + exists rest. by rewrite string_app_cons, <-Hrest.
    + cbn [String.length]. rewrite Hlen. lia.
Qed.

(** X11.  The address field of a [richapi] record is a prefix of the
    address of [min(10, length)] characters: an address of at most ten
    characters is printed whole and is not padded, a longer one is cut after
    the tenth character. *)
Theorem richapi_address_field (e : Env) (a : Address) :
  ∃ field rest,
    richapi_record e a = field +:+ rest
    ∧ starts_with field (addr_address a)
    ∧ String.length field = (10 `min` String.length (addr_address a))%nat
    ∧ ((String.length (addr_address a) ≤ 10)%nat → field = addr_address a).
Proof.
  destruct (substr0_prefix (addr_address a) 10) as [Hpre Hlen].
  exists (JS.substr0 (addr_address a) 10). eexists.
  split; [reflexivity|]. split; [exact Hpre|]. split; [exact Hlen|].
  intros Hshort. destruct Hpre as [rest Hrest].
  assert (String.length rest = 0%nat) as Hr.
  { apply (f_equal String.length) in Hrest.
    rewrite string_app_length, Hlen in Hrest. lia. }
  destruct rest; [|discriminate Hr].
  by rewrite string_app_nil_r in Hrest.
Qed.

Lemma richapi_address_field_witness :
  let a := mkAddress "kshort" 1 1 0
             (Moment.mkDate 2016 Moment.Feb 7 9 30) None in
  (String.length (addr_address a) ≤ 10)%nat
  ∧ ∃ rest, richapi_record Demo.env a = "kshort" +:+ rest.
Proof.
  intros a.
  assert (String.length (addr_address a) ≤ 10)%nat as Hshort
    by (vm_compute; lia).
  split; [exact Hshort|].
  destruct (richapi_address_field Demo.env a) as (field & rest & Hrec & _ & _ & Hwhole).
  exists rest. rewrite Hrec, (Hwhole Hshort). reflexivity.
Defined.

Lemma richapi_record_nonempty e a : (5 ≤ String.length (richapi_record e a))%nat.
Proof.
  unfold richapi_record.
  rewrite !string_app_length, format_richapi, !string_app_length,
    monthsShort_length.
  cbn [String.length]. lia.
Qed.

(** X12.  In the [richapi] mode the body is empty exactly when the rich
    list has no row. *)
Theorem richapi_empty_iff_no_rows (e : Env) (req : Request) :
  selects_richapi req →
  (result (get_root e req) = Send EmptyString
   ↔ rows (addresses_getRich e) = []).
Proof.
  intros Hsel. rewrite (get_root_richapi e req Hsel).
  unfold result. cbn [fst].
  rewrite (forEach_appends _ (richapi_record e)) by apply richapi_each_appends.
  rewrite string_app_nil_l.
  destruct (rows (addresses_getRich e)) as [|a l]; [done|].
  split; [|done]. intros [= H].
  apply (f_equal String.length) in H.
  rewrite concat_records_cons, string_app_length in H.
  pose proof (richapi_record_nonempty e a). cbn in H. lia.
Qed.

Lemma richapi_empty_iff_no_rows_witness :
  selects_richapi Demo.richapi_request
  ∧ result (get_root Demo.env Demo.richapi_request) ≠ Send EmptyString.
Proof.
  assert (selects_richapi Demo.richapi_request) as Hsel.
  { repeat split; [vm_compute; reflexivity..|]. by eexists. }
  split; [exact Hsel|]. intros H.
  apply (proj1 (richapi_empty_iff_no_rows Demo.env _ Hsel)) in H.
  discriminate H.
Defined.

End LineFacts.

(** ** More on the work routes *)

Module WorkMoreFacts.
Import WorkRoutes WorkLegacy WorkFacts.

Lemma positive_idempotent D : positive (positive D) = positive D.
Proof.
  unfold positive. induction D as [|u D IH]; [done|].
  rewrite filter_cons. case_decide as Hu; [|done].
  rewrite filter_cons. case_decide; [|done]. by rewrite IH.
Qed.

Lemma json_num_decrease_object v b r :
  json_num "value" (decrease_object v b r) = Some v
  ∧ json_num "blocks" (decrease_object v b r) = Some b
  ∧ json_num "reset" (decrease_object v b r) = Some r.
Proof. done. Qed.

(** X13.  Whatever rows [names.getDetailedUnpaid()] returns and in
    whatever order, the [decrease] object satisfies [0 <= blocks <= reset];
    [blocks] is zero exactly when no group has a countdown above zero, and so
    is [reset]; with no such group [value] is zero too. *)
Theorem decrease_blocks_at_most_reset (D : list UnpaidGroup) :
  ∃ value blocks reset,
    decrease D = decrease_object value blocks reset
    ∧ 0 ≤ blocks ≤ reset
    ∧ (blocks = 0 ↔ positive D = [])
    ∧ (reset = 0 ↔ positive D = [])
    ∧ (positive D = [] → value = 0).
Proof.
  destruct (positive D) as [|first rest] eqn:Hpos.
  - exists 0, 0, 0. split; [by apply decrease_empty|]. done.
  - destruct (decrease_positive D first rest Hpos) as (hi & Hd & Hhi & Hmax).
    assert (first ∈ positive D) as Hf by (rewrite Hpos; left).
    pose proof (Hmax first Hf) as Hle.
    apply positive_elem in Hf as [Hfpos _].
    exists (count first), (unpaid first), (unpaid hi).
    split; [exact Hd|].
    split; [lia|]. repeat split; try done; intros; lia.
Qed.

Lemma decrease_blocks_at_most_reset_witness :
  positive [mkUnpaid 7 0] = []
  ∧ WorkRoutes.decrease [mkUnpaid 7 0] = decrease_object 0 0 0.
Proof.
  split; [reflexivity|].
  destruct (decrease_blocks_at_most_reset [mkUnpaid 7 0])
    as (value & blocks & reset & Hd & _ & Hb & Hr & Hv).
  rewrite Hd, (Hv eq_refl), (proj2 Hb eq_refl), (proj2 Hr eq_refl).
  reflexivity.
Defined.

(** X14.  Groups whose countdown is zero or negative never influence the
    forecast: the [decrease] object computed from all the rows is the one
    computed from the rows above zero alone. *)
Theorem decrease_ignores_expired (D : list UnpaidGroup) :
  decrease D = decrease (positive D).
Proof.
  unfold decrease.
  by rewrite !nextUnpaid_head, !mostUnpaid_sorted_positive, positive_idempotent.
Qed.

Lemma sort_insert_perm {A} (key : A → Z) x l :
  JS.sort_insert (λ a b, key b - key a) x l ≡ₚ x :: l.
Proof.
  induction l as [|y l IH]; cbn; [done|].
  destruct (0 <? key y - key x); [|done].
  rewrite IH. apply Permutation_swap.
Qed.

Lemma sort_perm {A} (key : A → Z) l :
  JS.sort (λ a b, key b - key a) l ≡ₚ l.
Proof.
  induction l as [|y l IH]; [done|].
  rewrite sort_cons, sort_insert_perm. by rewrite IH.
Qed.

(** X15.  The array [mostUnpaid] holds exactly the groups whose countdown
    is above zero, each as often as in the input, ordered by descending
    countdown. *)
Theorem mostUnpaid_sorted_permutation (D : list UnpaidGroup) :
  mostUnpaid D ≡ₚ positive D
  ∧ descending unpaid (mostUnpaid D)
  ∧ Forall (λ u, 0 < unpaid u) (mostUnpaid D).
Proof.
  rewrite mostUnpaid_sorted_positive. split; [apply sort_perm|].
  split; [apply sort_descending|].
  apply Forall_forall. intros u Hu.
  apply (proj1 (sort_elem unpaid _ _)) in Hu.
  by apply positive_elem in Hu as [? _].
Qed.

(** X16.  [reset] does not depend on the order in which
    [names.getDetailedUnpaid()] returns its rows: two sequences that are
    permutations of each other give the same [reset]. *)
Theorem reset_order_independent (D D' : list UnpaidGroup) :
  D ≡ₚ D' →
  json_num "reset" (decrease D) = json_num "reset" (decrease D').
Proof.
  intros Hperm.
  assert (positive D ≡ₚ positive D') as Hpp
    by (unfold positive; by rewrite Hperm).
  destruct (positive D) as [|f r] eqn:HD.
  - apply Permutation_nil_l in Hpp.
    by rewrite (decrease_empty D HD), (decrease_empty D' (eq_sym Hpp)).
  - destruct (positive D') as [|f' r'] eqn:HD'.
    { by apply Permutation_nil_r in Hpp. }
    destruct (decrease_positive D f r HD) as (hi & -> & Hhi & Hmax).
    destruct (decrease_positive D' f' r' HD') as (hi' & -> & Hhi' & Hmax').
    rewrite !(proj2 (proj2 (json_num_decrease_object _ _ _))).
    f_equal. apply Z.le_antisymm.
    + apply Hmax'. by rewrite HD', <-Hpp, <-HD.
    + apply Hmax. by rewrite HD, Hpp, <-HD'.
Qed.

Lemma reset_order_independent_witness :
  [mkUnpaid 1 20; mkUnpaid 2 5] ≡ₚ [mkUnpaid 2 5; mkUnpaid 1 20]
  ∧ json_num "reset" (decrease [mkUnpaid 1 20; mkUnpaid 2 5]) = Some 20.
Proof.
  assert ([mkUnpaid 1 20; mkUnpaid 2 5] ≡ₚ [mkUnpaid 2 5; mkUnpaid 1 20])
    as Hperm by apply Permutation_swap.
  split; [exact Hperm|].
  rewrite (reset_order_independent _ _ Hperm). reflexivity.
Defined.

(** X17.  [GET /work/detailed] asks, in this order, for the last block,
    the unpaid count, the base value of the last block's id, the detailed
    unpaid rows and the work.  On a chain without a last block it dies with a
    type error after the first two calls and sends nothing. *)
Theorem work_detailed_call_order (e : Env) :
  (blocks_getLastBlock e = None →
   get_work_detailed e
   = (TypeError, [call_blocks_getLastBlock; call_names_getUnpaidNameCount]))
  ∧ (∀ lastBlock, blocks_getLastBlock e = Some lastBlock →
     trace (get_work_detailed e)
     = [call_blocks_getLastBlock; call_names_getUnpaidNameCount;
        call_blocks_getBaseBlockValue (block_id lastBlock);
        call_names_getDetailedUnpaid; call_krist_getWork]).
Proof.
  unfold get_work_detailed, getLastBlock, trace. cbn.
  split; [by intros ->|]. by intros b ->.
Qed.

Lemma work_detailed_call_order_witness :
  let e := mkEnv (addresses_getAddress Demo.env) (addresses_getRich Demo.env)
             (krist_makeV2Address Demo.env) 92861
             (tx_getTransactionsByAddress Demo.env)
             (txController_getTransactionsByAddress Demo.env)
             (txController_transactionToJSON Demo.env)
             (utils_padDigits Demo.env) (utils_sendErrorToRes Demo.env)
             (utils_getLogDetails Demo.env)
             None (blocks_getBaseBlockValue Demo.env) 3 [] in
  blocks_getLastBlock e = None
  ∧ result (get_work_detailed e) = TypeError.
Proof.
  intros e. split; [reflexivity|].
  by rewrite (proj1 (work_detailed_call_order e) eq_refl).
Defined.

(** X18.  [getwork] is tested for presence, so [GET /?getwork] with no
    value is answered, with the work as a decimal string that determines it.
    On a request that selects no mode of the address handler the client gets
    this answer whichever of the two [GET /] handlers is registered first;
    without [getwork] such a request is passed on by both. *)
Theorem getwork_any_registration_order (e : Env) (req : Request) :
  selects_none req →
  (is_Some (query req !! "getwork") →
   result (chain (AddressRoutes.get_root e) (get_root_getwork e) req)
     = Send (JS.Number_toString (krist_getWork e))
   ∧ result (chain (get_root_getwork e) (AddressRoutes.get_root e) req)
     = Send (JS.Number_toString (krist_getWork e))
   ∧ ∀ n, JS.Number_toString n = JS.Number_toString (krist_getWork e) →
          n = krist_getWork e)
  ∧ (query req !! "getwork" = None →
     chain (AddressRoutes.get_root e) (get_root_getwork e) req = (Next, [])
     ∧ chain (get_root_getwork e) (AddressRoutes.get_root e) req = (Next, [])).
Proof.
  intros Hnone. unfold chain, bind.
  rewrite (DispatchFacts.get_root_none e req Hnone).
  unfold get_root_getwork. split.
  - intros [w ->]. cbn. repeat split. intros n Hn. by apply (inj pretty).
  - by intros ->.
Qed.

Lemma getwork_any_registration_order_witness :
  let req := mkRequest {[ "getwork" := EmptyString ]} EmptyString in
  selects_none req ∧ is_Some (query req !! "getwork")
  ∧ result (chain (AddressRoutes.get_root Demo.env) (get_root_getwork Demo.env) req)
    = Send "92861".
Proof.
  intros req.
  assert (selects_none req) as Hnone by (repeat split; vm_compute; reflexivity).
  assert (is_Some (query req !! "getwork")) as Hw by (by eexists).
  split; [exact Hnone|]. split; [exact Hw|].
  destruct (getwork_any_registration_order Demo.env req Hnone) as [Hserved _].
  rewrite (proj1 (Hserved Hw)). reflexivity.
Defined.

End WorkMoreFacts.

(** ** The outcomes of the transactions route *)

Module BodyFacts.
Import AddressRoutes LegacyFacts.

(** X20.  [GET /addresses/:address/transactions] answers from the outcome
    of [txController.getTransactionsByAddress] alone.  When the controller
    throws, the response is the one [utils.sendErrorToRes] makes of the
    error.  When it returns a page, the response is a JSON object with [ok]
    true, the JSON of the rows in page order under [transactions], their
    number under [count] and the controller's count under [total]. *)
Theorem transactions_route_outcomes (e : Env) (req : Request) :
  let outcome :=
    txController_getTransactionsByAddress e (params_address req)
      (query req !! "limit") (query req !! "offset")
      (negb (JS.defined (query req !! "excludeMined"))) in
  (∀ err, outcome = inl err →
     result (get_address_transactions e req) = utils_sendErrorToRes e err)
  ∧ (∀ page, outcome = inr page →
       ∃ body,
         result (get_address_transactions e req) = SendJson body
         ∧ json_get "ok" body = Some (JBool true)
         ∧ json_get "transactions" body
           = Some (JArr (txController_transactionToJSON e <$> rows page))
         ∧ json_num "count" body = Some (Z.of_nat (length (rows page)))
         ∧ json_num "total" body = Some (total page)).
Proof.
  intros outcome.
  unfold get_address_transactions, controller_getTransactionsByAddress,
    bind, called, result. cbn [fst snd]. fold outcome.
  split.
  - by intros err ->.
  - intros page ->. eexists. split; [reflexivity|].
    cbn [fst ret]. unfold json_num. cbn. by rewrite length_map.
Qed.

Lemma transactions_route_outcomes_witness :
  let req := mkRequest ∅ "short" in
  txController_getTransactionsByAddress Demo.env (params_address req)
    (query req !! "limit") (query req !! "offset")
    (negb (JS.defined (query req !! "excludeMined")))
  = inl (mkError "invalid_parameter" (Some "address"))
  ∧ result (get_address_transactions Demo.env req)
    = SendJson (JObj [("ok", JBool false); ("error", JStr "invalid_parameter")]).
Proof.
  intros req. split; [reflexivity|].
  destruct (transactions_route_outcomes Demo.env req) as [Herr _].
  by rewrite (Herr (mkError "invalid_parameter" (Some "address")) eq_refl).
Defined.

End BodyFacts.
